(** * langgraph_multiagent: document tools, chain adapters and team graphs

    A shallow embedding of the Python sources

      - [src/tools/document.py]   (document tools of the authoring team)
      - [src/states/types.py]     (state classes and their reducers)
      - [src/nodes/common.py]     (node functions and chain adapters)
      - [src/agents/base.py]      (the team supervisor)
      - [src/graphs/*.py]         (the three star-shaped graphs)

    Python values are modelled as follows: [int] is [Z], [str] is [string],
    a [list] is a [list], a [dict] with string keys that is used as a record
    (graph state, state delta) is a [gmap string value], and a [dict] whose
    iteration order is observable ([inserts] of [edit_document]) is an
    association list in iteration order.  A call either returns or raises:
    [outcome]. *)

From Stdlib Require Import Ascii.
From stdpp Require Import base gmap strings list sorting pretty.

Set Warnings "-register-all".

Open Scope Z_scope.

(** ** Python preliminaries *)

Module Py.

(** The exceptions that the modelled code can raise. *)
Inductive exn :=
| FileNotFoundError
| IsADirectoryError
| KeyError
| IndexError
| TypeError
| AttributeError
| ValidationError
| OutputParserException
| GraphRecursionError
| ExternalError (msg : string).

Inductive outcome (A : Type) :=
| Returned (a : A)
| Raised (e : exn).
Arguments Returned {A} a.
Arguments Raised {A} e.

Definition bind {A B} (c : outcome A) (k : A → outcome B) : outcome B :=
  match c with
  | Returned a => k a
  | Raised e => Raised e
  end.

(** The one-character string ["\n"]. *)
Definition newline : string := String "010"%char "".

(** [l.insert(i, x)]: a negative index counts from the end, and an index
    outside the list is clamped to its nearest end. *)
Definition insert {A} (l : list A) (i : Z) (x : A) : list A :=
  let n := Z.of_nat (length l) in
  let where_ := if i <? 0 then Z.max 0 (i + n) else Z.min i n in
  take (Z.to_nat where_) l ++ x :: drop (Z.to_nat where_) l.

(** A slice bound, as [slice.indices] adjusts it for a list of [n]
    elements (step 1). *)
Definition adjust (n : Z) (dflt : Z) (i : option Z) : Z :=
  match i with
  | None => dflt
  | Some i => if i <? 0 then Z.max 0 (i + n) else Z.min i n
  end.

(** [l[start:end]]. *)
Definition slice {A} (l : list A) (start end_ : option Z) : list A :=
  let n := Z.of_nat (length l) in
  let lo := adjust n 0 start in
  let hi := adjust n n end_ in
  take (Z.to_nat (hi - lo)) (drop (Z.to_nat lo) l).

(** [sep.join(l)]. *)
Fixpoint join (sep : string) (l : list string) : string :=
  match l with
  | [] => ""
  | [s] => s
  | s :: l' => s +:+ sep +:+ join sep l'
  end.

(** [str(n)] and [f"{n}"] for an [int] [n] are stdpp's [pretty n]. *)

(** The order [<=] on tuples [(int, str)]: first component first. *)
Definition item_le (a b : Z * string) : Prop :=
  a.1 < b.1 ∨ (a.1 = b.1 ∧ String.le a.2 b.2).

#[global] Instance item_le_dec : RelDecision item_le.
Proof. intros a b. unfold item_le. apply _. Defined.

(** [sorted(d.items())] for a dict [d : Dict[int, str]]. *)
Definition sorted (items : list (Z * string)) : list (Z * string) :=
  merge_sort item_le items.

End Py.

Import Py.

(** ** src/tools/document.py *)

Module Document.

(** The working directory as the tools see a file once it is open: the text
    of each file in it, as reading it in text mode gives it, by the place of
    the file in the directory.  In this module [file_name] names that place;
    how the operating system finds the place for a name, and the line
    endings as they are stored, are those of module [Tool] below. *)
Abbreviation workdir := (gmap string string).

(** [file.readlines()] on the text of a file: the lines, each with its
    terminating newline, the last one possibly without. *)
Fixpoint readlines (s : string) : list string :=
  match s with
  | "" => []
  | String c s' =>
      if Ascii.eqb c "010"
      then String c "" :: readlines s'
      else match readlines s' with
           | [] => [String c ""]
           | l :: ls => String c l :: ls
           end
  end.

(** [file.writelines(lines)] on a file opened with ["w"]: the new text. *)
Definition writelines (lines : list string) : string :=
  foldr String.app "" lines.

(** The body of the [for] loop of [edit_document], run over the sorted
    inserts: the final list of lines, or the line number at which the
    function returns early. *)
Fixpoint apply_inserts (lines : list string) (sorted_inserts : list (Z * string))
  : list string + Z :=
  match sorted_inserts with
  | [] => inl lines
  | (line_number, text) :: rest =>
      if bool_decide (1 ≤ line_number ≤ Z.of_nat (length lines) + 1)
      then apply_inserts (Py.insert lines (line_number - 1) (text +:+ newline)) rest
      else inr line_number
  end.

Definition out_of_range_message (line_number : Z) : string :=
  "Error: Line number " +:+ pretty line_number +:+ " is out of range.".

Definition edited_message (file_name : string) : string :=
  "Document edited and saved to " +:+ file_name.

(** [edit_document(file_name, inserts)]: the result of the call and the
    working directory after it. *)
Definition edit_document (wd : workdir) (file_name : string)
    (inserts : list (Z * string)) : outcome string * workdir :=
  match wd !! file_name with
  | None => (Raised FileNotFoundError, wd)
  | Some content =>
      let lines := readlines content in
      let sorted_inserts := Py.sorted inserts in
      match apply_inserts lines sorted_inserts with
      | inr line_number => (Returned (out_of_range_message line_number), wd)
      | inl lines =>
          (Returned (edited_message file_name),
           <[file_name := writelines lines]> wd)
      end
  end.

(** [read_document(file_name, start, end)]. *)
Definition read_document (wd : workdir) (file_name : string)
    (start end_ : option Z) : outcome string :=
  match wd !! file_name with
  | None => Raised FileNotFoundError
  | Some content =>
      let lines := readlines content in
      let start := match start with Some _ => Some 0 | None => None end in
      Returned (Py.join newline (Py.slice lines start end_))
  end.

End Document.

Import Document.

(** ** src/states/types.py *)

Module States.

(** [HumanMessage(content=..., name=...)]. *)
Record Message := HumanMessage { content : string; name : option string }.

(** The Python values that graph states, state deltas and the parsed
    arguments of a function call hold. *)
Inductive value :=
| VNone
| VInt (z : Z)
| VStr (s : string)
| VMsg (m : Message)
| VList (l : list value)
| VDict (d : list (string * value)).

(** A graph state, a state delta, the result of an agent: a [dict] with
    string keys. *)
Abbreviation state := (gmap string value).

(** [operator.add] on the values above; [None] where [+] is not defined
    between the two operands. *)
Definition operator_add (a b : value) : option value :=
  match a, b with
  | VList x, VList y => Some (VList (x ++ y))
  | VStr x, VStr y => Some (VStr (x +:+ y))
  | VInt x, VInt y => Some (VInt (x + y))
  | _, _ => None
  end.

(** A state class: its fields in declaration order, each with the reducer
    of its [Annotated] type, if it has one. *)
Definition reducer := value → value → option value.
Definition StateClass := list (string * option reducer).

Definition ResearchTeamState : StateClass :=
  [("messages", Some operator_add); ("team_members", None); ("next", None)].

Definition DocWritingState : StateClass :=
  [("messages", Some operator_add); ("team_members", None); ("next", None);
   ("current_files", None)].

Definition SupervisorState : StateClass :=
  [("messages", Some operator_add); ("next", None)].

Definition reducer_of (cls : StateClass) (field : string) : option reducer :=
  mjoin ((list_to_map cls : gmap string (option reducer)) !! field).

(** The state classes of the three graphs. *)
Definition team_state_classes : list StateClass :=
  [ResearchTeamState; DocWritingState; SupervisorState].

End States.

Import States.

(** ** Calls with effects

    Agents, retrievers and the language model are external: a call to one of
    them may change the world (the model's sampling state, the files of the
    working directory) and may raise.  [M W A] is a computation over a world
    [W] that returns an [A] or raises. *)

Module Eff.

Definition M (W A : Type) : Type := W → outcome A * W.

Definition ret {W A} (a : A) : M W A := λ w, (Returned a, w).

Definition lift {W A} (c : outcome A) : M W A := λ w, (c, w).

Definition mbind {W A B} (c : M W A) (k : A → M W B) : M W B :=
  λ w, match c w with
       | (Returned a, w') => k a w'
       | (Raised e, w') => (Raised e, w')
       end.

End Eff.

Import Eff.

Notation "x '<-' c ';;' k" := (mbind c (λ x, k))
  (at level 100, c at next level, right associativity).

(** ** src/tools/document.py, continued *)

Module Retrieval.

(** [reference_previous_responses(query)], for the [complaint_retriever]
    that [create_document_tools] was given. *)
Definition reference_previous_responses {W}
    (complaint_retriever : option (string → M W value)) (query : string)
  : M W value :=
  match complaint_retriever with
  | None => ret (VStr "No complaint retriever available")
  | Some retriever => retriever query
  end.

End Retrieval.

Import Retrieval.

(** ** src/nodes/common.py *)

Module Nodes.

(** [v[-1]]. *)
Definition getitem_last (v : value) : outcome value :=
  match v with
  | VList l =>
      match last l with Some x => Returned x | None => Raised IndexError end
  | VStr s =>
      match last (String.list_ascii_of_string s) with
      | Some c => Returned (VStr (String c ""))
      | None => Raised IndexError
      end
  | VDict _ => Raised KeyError
  | VNone | VInt _ | VMsg _ => Raised TypeError
  end.

(** [d[key]] on a [dict]. *)
Definition getitem (d : state) (key : string) : outcome value :=
  match d !! key with
  | Some v => Returned v
  | None => Raised KeyError
  end.

(** [agent_node(state, agent, name)].  A message holds a text here: for an
    output that is a text the message is made; [HumanMessage] also takes a
    list of parts, which the messages of this model cannot hold, and
    [ValidationError] stands for every output that is not a text. *)
Definition agent_node {W} (st : state) (agent : state → M W state)
    (name : string) : M W state :=
  result <- agent st;;
  output <- lift (getitem result "output");;
  match output with
  | VStr text =>
      ret {[ "messages" := VList [VMsg (HumanMessage text (Some name))] ]}
  | _ => lift (Raised ValidationError)
  end.

Definition enter_chain (message : string) (members : option (list string))
  : state :=
  let results : state :=
    {[ "messages" := VList [VMsg (HumanMessage message None)] ]} in
  match members with
  | Some ((_ :: _) as members) =>
      <[ "team_members" := VStr (Py.join ", " members) ]> results
  | _ => results
  end.

Definition get_last_message (st : state) : outcome string :=
  Py.bind (getitem st "messages") (λ messages,
  Py.bind (getitem_last messages) (λ m,
  match m with
  | VMsg m => Returned (content m)
  | _ => Raised AttributeError
  end)).

Definition join_graph (response : state) : outcome state :=
  Py.bind (getitem response "messages") (λ messages,
  Py.bind (getitem_last messages) (λ m,
  Returned {[ "messages" := VList [m] ]})).

End Nodes.

Import Nodes.

(** ** src/agents/base.py *)

Module Agents.

(** What the language model is called with by the supervisor chain: the
    formatted prompt (its system text, the [team_members] and [options]
    filled in by [partial], the conversation) and the [enum] of the
    [route] function it is bound to. *)
Record RouteRequest := {
  system_prompt : string;
  team_members : string;
  conversation : value;
  options : list string;
}.

(** What the model answers: a call of [route] with its arguments already
    read as JSON, or something [JsonOutputFunctionsParser] cannot parse. *)
Inductive Reply :=
| FunctionCall (arguments : state)
| Unparsable.

Definition JsonOutputFunctionsParser (r : Reply) : outcome state :=
  match r with
  | FunctionCall arguments => Returned arguments
  | Unparsable => Raised OutputParserException
  end.

Definition create_team_supervisor {W} (llm : RouteRequest → M W Reply)
    (system_prompt : string) (members : list string) : state → M W state :=
  let options := "FINISH" :: members in
  λ st,
    messages <- lift (getitem st "messages");;
    reply <- llm {| system_prompt := system_prompt;
                    team_members := Py.join ", " members;
                    conversation := messages;
                    options := options |};;
    lift (JsonOutputFunctionsParser reply).

End Agents.

Import Agents.

(** ** The graph builder of the graph files

    [StateGraph(cls)], [add_node], [add_edge], [add_conditional_edges] and
    [set_entry_point] record the wiring; [compile()] leaves it as it is. *)

Module Graph.

(** Where an edge leads: a node, or [END]. *)
Inductive target :=
| Node (name : string)
| END.

(** A conditional edge: the function that picks a key from the state, and
    the mapping from keys to targets. *)
Record Branch := {
  path : state → outcome value;
  path_map : gmap string target;
}.

Record StateGraph (W : Type) := {
  state_class : StateClass;
  nodes : gmap string (state → M W state);
  edges : list (string * string);
  branches : list (string * Branch);
  entry_point : option string;
}.
Arguments state_class {W} _.
Arguments nodes {W} _.
Arguments edges {W} _.
Arguments branches {W} _.
Arguments entry_point {W} _.

Definition new_graph {W} (cls : StateClass) : StateGraph W :=
  {| state_class := cls; nodes := ∅; edges := []; branches := [];
     entry_point := None |}.

Definition add_node {W} (name : string) (action : state → M W state)
    (g : StateGraph W) : StateGraph W :=
  {| state_class := state_class g; nodes := <[name := action]> (nodes g);
     edges := edges g; branches := branches g;
     entry_point := entry_point g |}.

Definition add_edge {W} (start_key end_key : string) (g : StateGraph W)
  : StateGraph W :=
  {| state_class := state_class g; nodes := nodes g;
     edges := edges g ++ [(start_key, end_key)]; branches := branches g;
     entry_point := entry_point g |}.

Definition add_conditional_edges {W} (source : string)
    (path : state → outcome value) (path_map : list (string * target))
    (g : StateGraph W) : StateGraph W :=
  {| state_class := state_class g; nodes := nodes g; edges := edges g;
     branches := branches g ++
       [(source, {| path := path; path_map := list_to_map path_map |})];
     entry_point := entry_point g |}.

Definition set_entry_point {W} (key : string) (g : StateGraph W)
  : StateGraph W :=
  {| state_class := state_class g; nodes := nodes g; edges := edges g;
     branches := branches g; entry_point := Some key |}.

(** [lambda x: x["next"]], the path function of every conditional edge. *)
Definition by_next (x : state) : outcome value := getitem x "next".

End Graph.

Import Graph.

(** ** The graph executor *)

Module Executor.

(** Modelled from the spec: the merge of one field of a node's delta into
    the state (spec 4.1: message lists are concatenated, every other field
    is replaced).  The executor is the LangGraph library, which is not
    under src/; the reducers it applies are those of the state class. *)
Definition merge_field (cls : StateClass) (old : option value)
    (field : string) (new : value) : option value :=
  match reducer_of cls field, old with
  | Some add, Some old => add old new
  | _, _ => Some new
  end.

(** Modelled from the spec: the merge of a node's delta into the state
    (spec 4.1), done by the executor and not by the nodes; it fails where
    a reducer is not defined on the two values. *)
Definition merge (cls : StateClass) (s delta : state) : outcome state :=
  if decide (map_Forall (λ k new, is_Some (merge_field cls (s !! k) k new)) delta)
  then Returned (map_imap (λ k new, merge_field cls (s !! k) k new) delta ∪ s)
  else Raised TypeError.

(** Modelled from the spec: the target that a conditional edge picks
    (spec 4.5: keyed by the routing decision; a value that is no key of
    the mapping is an error, there is no default). *)
Definition branch_target (b : Branch) (s : state) : outcome target :=
  Py.bind (path b s) (λ v,
  match v with
  | VStr label =>
      match path_map b !! label with
      | Some t => Returned t
      | None => Raised KeyError
      end
  | VList _ | VDict _ => Raised TypeError
  | VNone | VInt _ | VMsg _ => Raised KeyError
  end).

(** Modelled from the spec: the picks of several conditional edges, in
    order (spec 4.5); the first that fails makes the whole fail. *)
Fixpoint branch_targets (bs : list (string * Branch)) (s : state)
  : outcome (list target) :=
  match bs with
  | [] => Returned []
  | b :: bs' =>
      Py.bind (branch_target b.2 s) (λ t,
      Py.bind (branch_targets bs' s) (λ ts, Returned (t :: ts)))
  end.

(** Modelled from the spec: the transitions that fire after node [n] has
    run (spec 4.5): every edge out of [n], and the pick of every
    conditional edge out of [n]. *)
Definition fired {W} (g : StateGraph W) (n : string) (s : state)
  : outcome (list target) :=
  let direct := (λ e, Node e.2) <$> filter (λ e, e.1 = n) (edges g) in
  Py.bind (branch_targets (filter (λ b, b.1 = n) (branches g)) s) (λ picked,
  Returned (direct ++ picked)).

(** Modelled from the spec: a run of the graph from node [n] (spec 4.5,
    5 and 7): strictly sequential steps, each one running a node, merging
    its delta and following the one transition that fires; at most
    [limit] steps, beyond which the run fails.  The result comes with the
    names of the nodes that ran, in order. *)
Fixpoint run {W} (g : StateGraph W) (limit : nat) (n : string) (s : state)
    (w : W) : list string * outcome state * W :=
  match limit with
  | O => ([], Raised GraphRecursionError, w)
  | S limit' =>
      match nodes g !! n with
      | None => ([], Raised KeyError, w)
      | Some action =>
          match (action : state → M W state) s w with
          | (Raised e, w') => ([n], Raised e, w')
          | (Returned delta, w') =>
              match merge (state_class g) s delta with
              | Raised e => ([n], Raised e, w')
              | Returned s' =>
                  match fired g n s' with
                  | Raised e => ([n], Raised e, w')
                  | Returned [END] => ([n], Returned s', w')
                  | Returned [Node m] =>
                      let '(trace, r, w'') := run g limit' m s' w' in
                      (n :: trace, r, w'')
                  | Returned _ => ([n], Raised (ExternalError "fan-out"), w')
                  end
              end
          end
      end
  end.

(** Modelled from the spec: [graph.invoke(input)] under a step ceiling:
    the input is merged into the empty state and the graph runs from its
    entry point. *)
Definition invoke {W} (g : StateGraph W) (recursion_limit : nat)
    (input : state) : M W state :=
  λ w,
    match entry_point g with
    | None => (Raised (ExternalError "no entry point"), w)
    | Some n =>
        match merge (state_class g) ∅ input with
        | Raised e => (Raised e, w)
        | Returned s =>
            let '(_, r, w') := run g recursion_limit n s w in (r, w')
        end
    end.

End Executor.

Import Executor.

(** ** src/agents/research.py, src/agents/authoring.py: the supervisors *)

Module Teams.

Definition create_research_supervisor {W} (llm : RouteRequest → M W Reply)
    (members : option (list string)) : state → M W state :=
  let members := default ["Search"; "LoanRetriever"] members in
  create_team_supervisor llm
    ("You are a supervisor tasked with managing a conversation between the"
     +:+ " following workers:  Search, LoanRetriever. Given the following user request,"
     +:+ " determine the subject to be researched and respond with the worker to act next. Each worker will perform a"
     +:+ " task and respond with their results and status. "
     +:+ " You should never ask your team to do anything beyond research. They are not required to write content or posts."
     +:+ " You should only pass tasks to workers that are specifically research focused."
     +:+ " When finished, respond with FINISH.")
    members.

Definition create_doc_writing_supervisor {W} (llm : RouteRequest → M W Reply)
    (members : option (list string)) : state → M W state :=
  let members :=
    default ["DocWriter"; "NoteTaker"; "DopenessEditor"; "CopyEditor"] members in
  create_team_supervisor llm
    ("You are a supervisor tasked with managing a conversation between the"
     +:+ " following workers: {team_members}. You should always verify the technical"
     +:+ " contents after any edits are made. "
     +:+ "Given the following user request,"
     +:+ " respond with the worker to act next. Each worker will perform a"
     +:+ " task and respond with their results and status. When each team is finished,"
     +:+ " you must respond with FINISH.")
    members.

End Teams.

Import Teams.

(** ** src/graphs/research.py, authoring.py, supervisor.py

    The agents of a team (an [AgentExecutor] over the model and its tools,
    for the authoring team behind [prelude]) are taken as they are invoked:
    a call from a state to a result. *)

Module Graphs.

Definition create_research_graph {W} (llm : RouteRequest → M W Reply)
    (search_agent research_agent : state → M W state) : StateGraph W :=
  let search_node := λ st, agent_node st search_agent "Search" in
  let research_node := λ st, agent_node st research_agent "LoanRetriever" in
  let supervisor_agent := create_research_supervisor llm None in
  set_entry_point "supervisor"
    (add_conditional_edges "supervisor" by_next
       [("Search", Node "Search"); ("LoanRetriever", Node "LoanRetriever");
        ("FINISH", END)]
    (add_edge "LoanRetriever" "supervisor"
    (add_edge "Search" "supervisor"
    (add_node "supervisor" supervisor_agent
    (add_node "LoanRetriever" research_node
    (add_node "Search" search_node
    (new_graph ResearchTeamState))))))).

Definition create_authoring_graph {W} (llm : RouteRequest → M W Reply)
    (doc_writer note_taker copy_editor dopeness_editor : state → M W state)
  : StateGraph W :=
  let doc_writing_node := λ st, agent_node st doc_writer "DocWriter" in
  let note_taking_node := λ st, agent_node st note_taker "NoteTaker" in
  let copy_editing_node := λ st, agent_node st copy_editor "CopyEditor" in
  let dopeness_node := λ st, agent_node st dopeness_editor "DopenessEditor" in
  let supervisor := create_doc_writing_supervisor llm None in
  set_entry_point "supervisor"
    (add_conditional_edges "supervisor" by_next
       [("DocWriter", Node "DocWriter"); ("NoteTaker", Node "NoteTaker");
        ("CopyEditor", Node "CopyEditor");
        ("DopenessEditor", Node "DopenessEditor"); ("FINISH", END)]
    (add_edge "DopenessEditor" "supervisor"
    (add_edge "CopyEditor" "supervisor"
    (add_edge "NoteTaker" "supervisor"
    (add_edge "DocWriter" "supervisor"
    (add_node "supervisor" supervisor
    (add_node "DopenessEditor" dopeness_node
    (add_node "CopyEditor" copy_editing_node
    (add_node "NoteTaker" note_taking_node
    (add_node "DocWriter" doc_writing_node
    (new_graph DocWritingState))))))))))).

(** [get_last_message | chain | join_graph], a team as one node. *)
Definition team_node {W} (chain : string → M W state) : state → M W state :=
  λ st,
    message <- lift (get_last_message st);;
    response <- chain message;;
    lift (join_graph response).

Definition create_supervisor_graph {W} (llm : RouteRequest → M W Reply)
    (research_chain authoring_chain : string → M W state) : StateGraph W :=
  let supervisor_node :=
    create_team_supervisor llm
      ("You are a supervisor tasked with managing a conversation between the"
       +:+ " following teams: {team_members}. Given the following user request,"
       +:+ " respond with the worker to act next. Each worker will perform a"
       +:+ " task and respond with their results and status. When all workers are finished,"
       +:+ " you must respond with FINISH.")
      ["Research team"; "Response team"] in
  set_entry_point "supervisor"
    (add_conditional_edges "supervisor" by_next
       [("Response team", Node "Response team");
        ("Research team", Node "Research team"); ("FINISH", END)]
    (add_edge "Response team" "supervisor"
    (add_edge "Research team" "supervisor"
    (add_node "supervisor" supervisor_node
    (add_node "Response team" (team_node authoring_chain)
    (add_node "Research team" (team_node research_chain)
    (new_graph SupervisorState))))))).

(** [create_chains]: [enter_chain | graph] for each graph that is given;
    the chains run under the step ceiling of the invocation. *)
Definition create_chains {W} (recursion_limit : nat)
    (research_graph authoring_graph : option (StateGraph W))
  : option (string → M W state) * option (string → M W state) :=
  let research_chain :=
    (λ g message, invoke g recursion_limit (enter_chain message None))
      <$> research_graph in
  let authoring_chain :=
    (λ g message,
       let authoring_nodes :=
         ["DocWriter"; "NoteTaker"; "CopyEditor"; "DopenessEditor"; "supervisor"] in
       invoke g recursion_limit (enter_chain message (Some authoring_nodes)))
      <$> authoring_graph in
  (research_chain, authoring_chain).

End Graphs.

Import Graphs.

(** ** The shape of a team graph *)

Module Topology.

(** A star around the supervisor: out of every node but the supervisor
    there is one edge, to the supervisor, and no conditional edge. *)
Definition star {W} (g : StateGraph W) : Prop :=
  ∀ n, is_Some (nodes g !! n) → n ≠ "supervisor" →
    filter (λ e, e.1 = n) (edges g) = [(n, "supervisor")] ∧
    filter (λ b, b.1 = n) (branches g) = [].

(** Out of the supervisor there is no edge and one conditional edge, which
    picks by [next] and has the members and [FINISH] as its keys. *)
Definition routes_by_next {W} (g : StateGraph W) (members : list string) : Prop :=
  filter (λ e, e.1 = "supervisor") (edges g) = [] ∧
  ∃ pm,
    filter (λ b, b.1 = "supervisor") (branches g)
      = [("supervisor", {| path := by_next; path_map := pm |})] ∧
    ∀ label,
      pm !! label =
      if decide (label = "FINISH") then Some END
      else if decide (label ∈ members) then Some (Node label) else None.

End Topology.

Import Topology.

(** ** src/tools/document.py: texts, and the lines of an outline *)

Module Writing.

(** The characters of a text. *)
Definition chars (s : string) : list ascii := String.list_ascii_of_string s.

(** A text without line feed, and a text without carriage return (which
    reading in text mode would turn into a line feed). *)
Definition no_newline (s : string) : Prop := "010"%char ∉ chars s.
Definition no_carriage_return (s : string) : Prop := "013"%char ∉ chars s.

(** [f"{i + 1}. {point}\n"], what [create_outline] writes for the point at
    index [i]. *)
Definition outline_line (i : nat) (point : string) : string :=
  pretty (Z.of_nat i + 1) +:+ ". " +:+ point +:+ newline.

End Writing.

Import Writing.

(** ** src/tools/document.py: the tools on the files as they are stored *)

Module Tool.

(** What the operating system makes of [working_directory / file_name] when
    the file is opened: the place of a file in the directory (the file need
    not be there yet), or the error that [open] raises for the name in every
    mode (the name of a directory, a name under a directory that is not
    there, a name that is too long).  Names that lead to one file, such as
    [a.txt] and [./a.txt], have one place. *)
Inductive location :=
| AtFile (key : string)
| Refused (e : exn).

(** The files as they are stored, by place: the characters of each file,
    with its line endings as they are on disk. *)
Abbreviation files := (gmap string string).

(** Reading in text mode (universal newlines): a carriage return followed
    by a line feed, and a carriage return alone, come out as one line
    feed. *)
Fixpoint universal_newlines (raw : string) : string :=
  match raw with
  | "" => ""
  | String c rest =>
      if Ascii.eqb c "013"
      then match rest with
           | String c' rest' =>
               if Ascii.eqb c' "010"
               then String "010" (universal_newlines rest')
               else String "010" (universal_newlines rest)
           | "" => String "010" ""
           end
      else String c (universal_newlines rest)
  end.

(** Writing in text mode stores the text as it is where the line separator
    of the system is the line feed, which is taken here. *)

(** [read_document(file_name, start, end)]. *)
Definition read_document (resolve : string → location) (fs : files)
    (file_name : string) (start end_ : option Z) : outcome string :=
  match resolve file_name with
  | Refused e => Raised e
  | AtFile key =>
      match fs !! key with
      | None => Raised FileNotFoundError
      | Some raw =>
          let lines := readlines (universal_newlines raw) in
          let start := match start with Some _ => Some 0 | None => None end in
          Returned (Py.join newline (Py.slice lines start end_))
      end
  end.

(** [write_document(content, file_name)]: the file is opened with ["w"], so
    it is made or emptied, and gets the content. *)
Definition write_document (resolve : string → location) (fs : files)
    (content file_name : string) : outcome string * files :=
  match resolve file_name with
  | Refused e => (Raised e, fs)
  | AtFile key =>
      (Returned ("Document saved to " +:+ file_name), <[key := content]> fs)
  end.

(** [create_outline(points, file_name)]: one [file.write] per point, in
    order, into the file opened with ["w"]. *)
Definition create_outline (resolve : string → location) (fs : files)
    (points : list string) (file_name : string) : outcome string * files :=
  match resolve file_name with
  | Refused e => (Raised e, fs)
  | AtFile key =>
      (Returned ("Outline saved to " +:+ file_name),
       <[key := writelines (imap outline_line points)]> fs)
  end.

(** [edit_document(file_name, inserts)]: the result of the call and the
    files after it. *)
Definition edit_document (resolve : string → location) (fs : files)
    (file_name : string) (inserts : list (Z * string))
  : outcome string * files :=
  match resolve file_name with
  | Refused e => (Raised e, fs)
  | AtFile key =>
      match fs !! key with
      | None => (Raised FileNotFoundError, fs)
      | Some raw =>
          let lines := readlines (universal_newlines raw) in
          let sorted_inserts := Py.sorted inserts in
          match apply_inserts lines sorted_inserts with
          | inr line_number => (Returned (out_of_range_message line_number), fs)
          | inl lines =>
              (Returned (edited_message file_name),
               <[key := writelines lines]> fs)
          end
      end
  end.

End Tool.

(** ** src/nodes/common.py: [prelude] *)

Module Prelude.

(** [prelude(state, working_directory)], for the list [written_files] that
    the comprehension over [working_directory.rglob("*")] gives: the paths
    under the directory, relative to it, in the order of the listing (the
    empty list when the listing raises, which the bare [except] swallows). *)
Definition prelude (st : state) (written_files : list string) : state :=
  match written_files with
  | [] => <[ "current_files" := VStr "No files written." ]> st
  | _ :: _ =>
      <[ "current_files" :=
           VStr (newline
                 +:+ "Below are files your team has written to the directory:"
                 +:+ newline
                 +:+ Py.join newline ((λ f, " - " +:+ f) <$> written_files)) ]> st
  end.

End Prelude.

Import Prelude.

(** ** src/graphs/rag.py: the two steps of the RAG graph *)

Module Rag.

(** [retrieve(state, retriever)]. *)
Definition retrieve {W} (st : state) (retriever : value → M W value)
  : M W state :=
  question <- lift (getitem st "question");;
  retrieved_docs <- retriever question;;
  ret {[ "context" := retrieved_docs ]}.

(** [generate(state, llm)]; [generator_chain] is the chain
    [chat_prompt | llm | StrOutputParser()], called with the dict of its two
    inputs. *)
Definition generate {W} (st : state) (generator_chain : state → M W value)
  : M W state :=
  query <- lift (getitem st "question");;
  context <- lift (getitem st "context");;
  response <- generator_chain {[ "query" := query; "context" := context ]};;
  ret {[ "response" := response ]}.

End Rag.

Import Rag.

(** ** src/utils/config.py: [setup_environment] *)

Module Config.

(** The environment of the process, [os.environ]. *)
Abbreviation environ := (gmap string string).

(** [os.getenv(key, default)]. *)
Definition getenv (env : environ) (key dflt : string) : string :=
  default dflt (env !! key).

Definition setup_environment (env : environ) : environ :=
  let env := <[ "OPENAI_API_KEY" := getenv env "OPENAI_API_KEY" "" ]> env in
  let env := <[ "TAVILY_API_KEY" := getenv env "TAVILY_API_KEY" "" ]> env in
  let env := <[ "LANGSMITH_API_KEY" := getenv env "LANGSMITH_API_KEY" "" ]> env in
  let env := <[ "LANGSMITH_PROJECT" := "langgraph_multiagent" ]> env in
  <[ "LANGSMITH_TRACING" := "true" ]> env.

End Config.

Import Config.

(** * Properties *)

(** ** Python lists and sorting *)

Section py_lists.
Context {A : Type}.
Implicit Types (l : list A) (x : A) (i : Z) (j : nat).

Lemma insert_in_range l i x :
  0 ≤ i ≤ Z.of_nat (length l) →
  Py.insert l i x = take (Z.to_nat i) l ++ x :: drop (Z.to_nat i) l.
Proof.
  intros Hi. unfold Py.insert.
  destruct (Z.ltb_spec i 0) as [?|_]; [lia|].
  by rewrite Z.min_l by lia.
Qed.

Lemma insert_length l i x : length (Py.insert l i x) = S (length l).
Proof.
  unfold Py.insert. rewrite length_app. simpl.
  rewrite length_take, length_drop. lia.
Qed.

Lemma insert_lookup_at l i x :
  0 ≤ i ≤ Z.of_nat (length l) → Py.insert l i x !! Z.to_nat i = Some x.
Proof.
  intros Hi. rewrite insert_in_range by done.
  rewrite lookup_app_r; rewrite length_take; [|lia].
  by replace (Z.to_nat i - Z.to_nat i `min` length l)%nat with 0%nat by lia.
Qed.

Lemma insert_lookup_below l i x j :
  0 ≤ i ≤ Z.of_nat (length l) → Z.of_nat j < i →
  Py.insert l i x !! j = l !! j.
Proof.
  intros Hi Hj. rewrite insert_in_range by done.
  rewrite lookup_app_l by (rewrite length_take; lia).
  apply lookup_take_lt. lia.
Qed.

Lemma insert_sublist l i x : sublist l (Py.insert l i x).
Proof.
  unfold Py.insert. set (n := Z.to_nat _).
  rewrite <-(take_drop n l) at 1.
  apply sublist_app; [done|]. by apply sublist_cons.
Qed.

Lemma slice_from_zero l (e : option Z) :
  Py.slice l (Some 0) e = Py.slice l None e ∧
  ∃ n, Py.slice l (Some 0) e = take n l.
Proof.
  unfold Py.slice, Py.adjust. simpl.
  rewrite Z.min_l by lia. split; [done|].
  rewrite drop_0. eauto.
Qed.
End py_lists.

#[local] Instance item_le_total : Total Py.item_le.
Proof.
  intros [k1 t1] [k2 t2]. unfold Py.item_le. simpl.
  destruct (Z.lt_trichotomy k1 k2) as [?|[->|?]]; [auto| |auto].
  destruct (total String.le t1 t2); auto.
Qed.

#[local] Instance item_le_trans : Transitive Py.item_le.
Proof.
  intros [k1 t1] [k2 t2] [k3 t3]. unfold Py.item_le. simpl.
  intros [?|[-> ?]] [?|[-> ?]]; [left; lia|by left|by left|].
  right. split; [done|]. by etrans.
Qed.

#[local] Instance item_le_antisymm : AntiSymm (=) Py.item_le.
Proof.
  intros [k1 t1] [k2 t2]. unfold Py.item_le. simpl.
  intros [?|[-> ?]] [?|[? ?]]; try lia.
  f_equal. by apply (anti_symm String.le).
Qed.

Lemma sorted_permutation items : Py.sorted items ≡ₚ items.
Proof. apply merge_sort_Permutation. Qed.

Lemma sorted_ascending items : StronglySorted Py.item_le (Py.sorted items).
Proof. apply (StronglySorted_merge_sort _). Qed.

(** The result of [sorted] depends on the items only, not on their order. *)
Lemma sorted_order_irrelevant items items' :
  items' ≡ₚ items → Py.sorted items' = Py.sorted items.
Proof.
  intros Hp. apply (StronglySorted_unique Py.item_le).
  - apply sorted_ascending.
  - apply sorted_ascending.
  - by rewrite !sorted_permutation.
Qed.

(** With distinct keys, as in a [dict], the keys come out strictly
    ascending. *)
Lemma sorted_keys_ascending items :
  NoDup items.*1 → StronglySorted (λ a b, a.1 < b.1) (Py.sorted items).
Proof.
  intros Hnd.
  assert (NoDup (Py.sorted items).*1) as Hnd'.
  { by rewrite sorted_permutation. }
  pose proof (sorted_ascending items) as Hs.
  induction Hs as [|a l Hs IH Hall]; [constructor|].
  rewrite fmap_cons in Hnd'. apply NoDup_cons in Hnd' as [Hnotin Hnd'].
  constructor; [by apply IH|].
  apply Forall_forall. intros b Hb.
  rewrite Forall_forall in Hall. destruct (Hall b Hb) as [?|[Heq _]]; [done|].
  destruct Hnotin. rewrite Heq. by apply list_elem_of_fmap_2.
Qed.

(** ** Document tools *)

Lemma writelines_readlines s : writelines (readlines s) = s.
Proof.
  unfold writelines. induction s as [|c s IH]; [done|]. simpl.
  destruct (Ascii.eqb c "010"); simpl.
  - by rewrite IH.
  - destruct (readlines s) as [|l ls]; simpl in *; by rewrite <-IH.
Qed.

Lemma string_app_empty_r (s : string) : s +:+ "" = s.
Proof.
  induction s as [|c s IH]; [done|].
  change (String c (s +:+ "") = String c s). by rewrite IH.
Qed.

Lemma readlines_single content line : readlines content = [line] → content = line.
Proof.
  intros H. pose proof (writelines_readlines content) as Hw.
  rewrite H in Hw. unfold writelines in Hw. simpl in Hw.
  by rewrite string_app_empty_r in Hw.
Qed.

Lemma apply_inserts_app before after : ∀ lines,
  apply_inserts lines (before ++ after) =
  match apply_inserts lines before with
  | inl lines' => apply_inserts lines' after
  | inr line_number => inr line_number
  end.
Proof.
  induction before as [|[k t] before IH]; intros lines; simpl; [done|].
  case_bool_decide; [apply IH | done].
Qed.

(** The loop stops at [line_number] exactly when that insert, at its turn,
    is outside the range of the list as it is by then. *)
Lemma apply_inserts_stops si : ∀ lines line_number,
  apply_inserts lines si = inr line_number ↔
  ∃ before text after lines',
    si = before ++ (line_number, text) :: after ∧
    apply_inserts lines before = inl lines' ∧
    ¬ (1 ≤ line_number ≤ Z.of_nat (length lines') + 1).
Proof.
  induction si as [|[k t] si IH]; intros lines n; simpl.
  - split; [done|]. intros (before & ? & ? & ? & Heq & _). by destruct before.
  - case_bool_decide as Hk.
    + rewrite IH. split.
      * intros (before & text & after & lines' & -> & Hb & Hn).
        exists ((k, t) :: before), text, after, lines'. simpl.
        by rewrite bool_decide_eq_true_2.
      * intros (before & text & after & lines' & Heq & Hb & Hn).
        destruct before as [|[k' t'] before]; simplify_eq/=; [done|].
        rewrite bool_decide_eq_true_2 in Hb by done. eauto 10.
    + split.
      * intros [= ->]. by exists [], t, si, lines.
      * intros (before & text & after & lines' & Heq & Hb & Hn).
        destruct before as [|[k' t'] before]; simplify_eq/=; [done|].
        by rewrite bool_decide_eq_false_2 in Hb.
Qed.

Lemma apply_inserts_length si : ∀ lines lines',
  apply_inserts lines si = inl lines' →
  length lines' = (length lines + length si)%nat.
Proof.
  induction si as [|[k t] si IH]; intros lines lines'; simpl.
  - intros [= <-]. lia.
  - case_bool_decide; [|done]. intros ->%IH. rewrite insert_length. lia.
Qed.

Lemma apply_inserts_sublist si : ∀ lines lines',
  apply_inserts lines si = inl lines' → sublist lines lines'.
Proof.
  induction si as [|[k t] si IH]; intros lines lines'; simpl.
  - by intros [= <-].
  - case_bool_decide; [|done]. intros ?%IH.
    etrans; [apply insert_sublist|done].
Qed.

(** Inserts at later lines leave the lines before them in place. *)
Lemma apply_inserts_lookup_below si : ∀ lines lines' (j : nat),
  apply_inserts lines si = inl lines' →
  Forall (λ it, Z.of_nat j < it.1 - 1) si →
  lines' !! j = lines !! j.
Proof.
  induction si as [|[k t] si IH]; intros lines lines' j; simpl.
  - by intros [= <-].
  - case_bool_decide; [|done]. intros Hrest [Hj Hall]%Forall_cons. simpl in Hj.
    rewrite (IH _ _ _ Hrest Hall). apply insert_lookup_below; lia.
Qed.

(** Applied in strictly ascending order, every insert ends up at its own
    line number. *)
Lemma apply_inserts_places si : ∀ lines lines',
  StronglySorted (λ a b, a.1 < b.1) si →
  apply_inserts lines si = inl lines' →
  ∀ k text, (k, text) ∈ si →
    1 ≤ k ∧ lines' !! Z.to_nat (k - 1) = Some (text +:+ newline).
Proof.
  induction si as [|[k t] si IH]; intros lines lines' Hs; simpl.
  - intros _ k text Hin. by apply elem_of_nil in Hin.
  - apply StronglySorted_inv in Hs as [Hs Hall].
    case_bool_decide as Hk; [|done]. intros Hrest k' text Hin.
    apply elem_of_cons in Hin as [[= -> ->]|Hin]; [|by eapply IH].
    split; [lia|].
    rewrite (apply_inserts_lookup_below _ _ _ _ Hrest).
    + apply insert_lookup_at. lia.
    + eapply Forall_impl; [exact Hall|]. simpl. intros [k'' ?] ?. simpl in *. lia.
Qed.

Lemma edit_document_unfold wd file_name content inserts :
  wd !! file_name = Some content →
  edit_document wd file_name inserts =
  match apply_inserts (readlines content) (Py.sorted inserts) with
  | inr line_number => (Returned (out_of_range_message line_number), wd)
  | inl lines =>
      (Returned (edited_message file_name), <[file_name := writelines lines]> wd)
  end.
Proof. intros H. unfold edit_document. by rewrite H. Qed.

(** C1, as the claim states it, fails: on the one-line file ["a\n"] the
    inserts [{2: "X", 1: "Y"}] give the lines ["Y\n"; "X\n"; "a\n"], and not
    ["Y\n"; "a\n"; "X\n"]: the second insert goes to line 2 of the list that
    already holds the first one. *)
Lemma edit_document_second_insert_not_after_original :
  let wd : workdir := {[ "notes.txt" := "a" +:+ newline ]} in
  let wd' := (edit_document wd "notes.txt" [(2, "X"); (1, "Y")]).2 in
  readlines <$> wd' !! "notes.txt"
    = Some ["Y" +:+ newline; "X" +:+ newline; "a" +:+ newline] ∧
  readlines <$> wd' !! "notes.txt"
    ≠ Some ["Y" +:+ newline; "a" +:+ newline; "X" +:+ newline].
Proof. split; [by vm_compute|]. vm_compute. by intros [=]. Qed.

(** C1 (amended): for every file and every inserts mapping (distinct keys,
    any iteration order), [edit_document] applies the inserts in ascending
    line-number order, whatever the iteration order of the mapping; each
    insert is placed at its own line number in the list as it is by then, the
    earlier inserts included, so that when all of them are in range the
    written list is longer by the number of inserts, keeps the original lines
    in their order, and has at line [k] the text given for [k].  On a
    one-line file, [{2: "X", 1: "Y"}] gives the lines
    ["Y"; "X"; original line]. *)
Theorem edit_document_ascending_order wd file_name content inserts :
  wd !! file_name = Some content →
  NoDup inserts.*1 →
  (∀ inserts', inserts' ≡ₚ inserts →
     edit_document wd file_name inserts' = edit_document wd file_name inserts) ∧
  (Py.sorted inserts ≡ₚ inserts ∧
   StronglySorted (λ a b, a.1 < b.1) (Py.sorted inserts)) ∧
  (∀ lines',
     apply_inserts (readlines content) (Py.sorted inserts) = inl lines' →
     edit_document wd file_name inserts
       = (Returned (edited_message file_name),
          <[file_name := writelines lines']> wd) ∧
     length lines' = (length (readlines content) + length inserts)%nat ∧
     sublist (readlines content) lines' ∧
     ∀ k text, (k, text) ∈ inserts →
       1 ≤ k ∧ lines' !! Z.to_nat (k - 1) = Some (text +:+ newline)) ∧
  (∀ line, readlines content = [line] → inserts ≡ₚ [(2, "X"); (1, "Y")] →
     let lines' := ["Y" +:+ newline; "X" +:+ newline; line] in
     edit_document wd file_name inserts
       = (Returned (edited_message file_name),
          <[file_name := writelines lines']> wd) ∧
     readlines (writelines lines') = lines').
Proof.
  intros Hfile Hnd. split_and!.
  - intros inserts' Hp. rewrite !(edit_document_unfold _ _ content) by done.
    by rewrite (sorted_order_irrelevant inserts inserts').
  - apply sorted_permutation.
  - by apply sorted_keys_ascending.
  - intros lines' Happ. split_and!.
    + by rewrite (edit_document_unfold _ _ content), Happ.
    + rewrite (apply_inserts_length _ _ _ Happ).
      by rewrite (Permutation_length (sorted_permutation inserts)).
    + by eapply apply_inserts_sublist.
    + intros k text Hin.
      eapply (apply_inserts_places _ _ _ (sorted_keys_ascending _ Hnd) Happ).
      by rewrite sorted_permutation.
  - intros line Hline Hp lines'.
    rewrite (edit_document_unfold _ _ content), Hline by done.
    rewrite (sorted_order_irrelevant _ _ Hp).
    change (Py.sorted [(2, "X"); (1, "Y")]) with [(1, "Y"); (2, "X")].
    split; [done|].
    pose proof (readlines_single _ _ Hline) as ->.
    subst lines'. unfold writelines. simpl.
    rewrite string_app_empty_r. change ("" +:+ line) with line.
    by rewrite Hline.
Qed.

Lemma edit_document_ascending_order_witness :
  let wd : workdir := {[ "notes.txt" := "a" +:+ newline ]} in
  wd !! "notes.txt" = Some ("a" +:+ newline) ∧
  NoDup [(2, "X"); (1, "Y")].*1 ∧
  edit_document wd "notes.txt" [(2, "X"); (1, "Y")]
    = (Returned (edited_message "notes.txt"),
       <["notes.txt" :=
           writelines ["Y" +:+ newline; "X" +:+ newline; "a" +:+ newline]]> wd).
Proof.
  intros wd.
  assert (wd !! "notes.txt" = Some ("a" +:+ newline)) as Hfile by done.
  assert (NoDup [(2, "X"); (1, "Y")].*1) as Hnd by compute_done.
  split_and!; [done..|].
  destruct (edit_document_ascending_order wd "notes.txt" _ _ Hfile Hnd)
    as (_ & _ & _ & Hexample).
  by apply (Hexample ("a" +:+ newline)).
Defined.

(** C2: for every file and every inserts mapping, if a requested line
    number is outside [1, current line count + 1] at the time that insert is
    applied, after the earlier (ascending) inserts, [edit_document] returns
    an error string, it does not raise; a request for line 100 on a one-line
    file returns the error string and leaves the file as it was. *)
Theorem edit_document_out_of_range_returns_error wd file_name content inserts :
  wd !! file_name = Some content →
  (∀ before line_number text after lines,
     Py.sorted inserts = before ++ (line_number, text) :: after →
     apply_inserts (readlines content) before = inl lines →
     ¬ (1 ≤ line_number ≤ Z.of_nat (length lines) + 1) →
     edit_document wd file_name inserts
       = (Returned (out_of_range_message line_number), wd)) ∧
  (∀ line text, readlines content = [line] → inserts = [(100, text)] →
     edit_document wd file_name inserts
       = (Returned "Error: Line number 100 is out of range.", wd) ∧
     (edit_document wd file_name inserts).2 !! file_name = Some content).
Proof.
  intros Hfile. split.
  - intros before k text after lines Hsorted Hbefore Hk.
    rewrite (edit_document_unfold _ _ content) by done.
    assert (apply_inserts (readlines content) (Py.sorted inserts) = inr k) as ->;
      [|done].
    apply apply_inserts_stops. eauto 10.
  - intros line text Hline ->.
    rewrite (edit_document_unfold _ _ content), Hline by done.
    by change (Py.sorted [(100, text)]) with [(100, text)].
Qed.

Lemma edit_document_out_of_range_returns_error_witness :
  let wd : workdir := {[ "notes.txt" := "a" +:+ newline ]} in
  wd !! "notes.txt" = Some ("a" +:+ newline) ∧
  edit_document wd "notes.txt" [(5, "X"); (1, "Y")]
    = (Returned "Error: Line number 5 is out of range.", wd) ∧
  edit_document wd "notes.txt" [(100, "X")]
    = (Returned "Error: Line number 100 is out of range.", wd).
Proof.
  intros wd.
  assert (wd !! "notes.txt" = Some ("a" +:+ newline)) as Hfile by done.
  destruct (edit_document_out_of_range_returns_error wd "notes.txt" _
              [(5, "X"); (1, "Y")] Hfile) as [Hgeneral _].
  destruct (edit_document_out_of_range_returns_error wd "notes.txt" _
              [(100, "X")] Hfile) as [_ Hhundred].
  split_and!; [done| |].
  - apply (Hgeneral [(1, "Y")] 5 "X" [] ["Y" +:+ newline; "a" +:+ newline]);
      [done|done|]. simpl. lia.
  - by apply (Hhundred ("a" +:+ newline) "X").
Defined.

(** *** The files as they are stored *)

Lemma universal_newlines_both (raw : string) :
  no_carriage_return (Tool.universal_newlines raw) ∧
  ∀ c, no_carriage_return (Tool.universal_newlines (String c raw)).
Proof.
  unfold no_carriage_return, chars.
  induction raw as [|c' raw [IH1 IH2]].
  - split; [apply not_elem_of_nil|]. intros c. simpl.
    destruct (Ascii.eqb_spec c "013") as [->|Hc]; simpl;
      rewrite not_elem_of_cons; split; try done; apply not_elem_of_nil.
  - split; [apply IH2|]. intros c.
    change (Tool.universal_newlines (String c (String c' raw))) with
      (if Ascii.eqb c "013"
       then if Ascii.eqb c' "010"
            then String "010" (Tool.universal_newlines raw)
            else String "010" (Tool.universal_newlines (String c' raw))
       else String c (Tool.universal_newlines (String c' raw))).
    destruct (Ascii.eqb_spec c "013") as [->|Hc].
    + destruct (Ascii.eqb c' "010"); simpl; rewrite not_elem_of_cons;
        (split; [done|]); [apply IH1|apply IH2].
    + simpl. rewrite not_elem_of_cons. split; [done|]. apply IH2.
Qed.

(** A text as read holds no carriage return. *)
Lemma universal_newlines_no_carriage_return (raw : string) :
  no_carriage_return (Tool.universal_newlines raw).
Proof. apply universal_newlines_both. Qed.

(** A text without carriage return is read as it is stored. *)
Lemma universal_newlines_id (raw : string) :
  no_carriage_return raw → Tool.universal_newlines raw = raw.
Proof.
  unfold no_carriage_return, chars.
  induction raw as [|c raw IH]; [done|]. simpl.
  rewrite not_elem_of_cons. intros [Hc Hraw].
  destruct (Ascii.eqb_spec c "013") as [->|_]; [done|].
  by rewrite IH.
Qed.

Lemma universal_newlines_id_iff (raw : string) :
  Tool.universal_newlines raw = raw ↔ no_carriage_return raw.
Proof.
  split; [|apply universal_newlines_id].
  intros <-. apply universal_newlines_no_carriage_return.
Qed.

Lemma tool_edit_document_unfold resolve (fs : Tool.files) file_name key raw inserts :
  resolve file_name = Tool.AtFile key →
  fs !! key = Some raw →
  Tool.edit_document resolve fs file_name inserts =
  match apply_inserts (readlines (Tool.universal_newlines raw)) (Py.sorted inserts) with
  | inr line_number => (Returned (out_of_range_message line_number), fs)
  | inl lines =>
      (Returned (edited_message file_name), <[key := writelines lines]> fs)
  end.
Proof. intros Hr Hf. unfold Tool.edit_document. by rewrite Hr, Hf. Qed.

(** On a name that is its own place, the tool on the stored files answers
    as [Document.edit_document] does on the texts as read. *)
Lemma tool_edit_document_as_read resolve (fs : Tool.files) file_name inserts :
  resolve file_name = Tool.AtFile file_name →
  (Tool.edit_document resolve fs file_name inserts).1
  = (edit_document (Tool.universal_newlines <$> fs) file_name inserts).1.
Proof.
  intros Hr. unfold Tool.edit_document, edit_document.
  rewrite Hr, lookup_fmap. destruct (fs !! file_name) as [raw|]; [|done].
  simpl. by destruct (apply_inserts _ _).
Qed.

Lemma tool_read_document_unfold resolve (fs : Tool.files) file_name key raw
    (start end_ : option Z) :
  resolve file_name = Tool.AtFile key →
  fs !! key = Some raw →
  Tool.read_document resolve fs file_name start end_ =
  Returned (Py.join newline
    (Py.slice (readlines (Tool.universal_newlines raw))
       (match start with Some _ => Some 0 | None => None end) end_)).
Proof. intros Hr Hf. unfold Tool.read_document. by rewrite Hr, Hf. Qed.

(** C10, as the claim states it, fails for the file on disk: with no inserts
    the file is written again from its lines as read, so a file stored with
    carriage returns comes out with line feeds only. *)
Lemma edit_document_empty_inserts_rewrites_line_endings :
  let cr := String "013"%char "" in
  let fs : Tool.files :=
    {[ "notes.txt" := "a" +:+ cr +:+ newline +:+ "b" +:+ cr +:+ newline ]} in
  let after := Tool.edit_document Tool.AtFile fs "notes.txt" [] in
  after.1 = Returned (edited_message "notes.txt") ∧
  after.2 !! "notes.txt" = Some ("a" +:+ newline +:+ "b" +:+ newline) ∧
  after.2 !! "notes.txt" ≠ fs !! "notes.txt".
Proof. split_and!; [by vm_compute..|]. vm_compute. by intros [=]. Qed.

(** C10 (amended): [edit_document] is atomic.  The file on disk is written
    only if every insert succeeds: whenever an insert is out of range at its
    turn, also after earlier inserts went into the list in memory, the files
    are left as they were, character for character.  With no inserts at all
    the call returns the success message and writes the file again with its
    text as read: the content is as before exactly when it holds no carriage
    return. *)
Theorem edit_document_atomic_on_disk (resolve : string → Tool.location)
    (fs : Tool.files) file_name key raw (inserts : list (Z * string)) :
  resolve file_name = Tool.AtFile key →
  fs !! key = Some raw →
  (∀ before line_number text after lines,
     Py.sorted inserts = before ++ (line_number, text) :: after →
     apply_inserts (readlines (Tool.universal_newlines raw)) before = inl lines →
     ¬ (1 ≤ line_number ≤ Z.of_nat (length lines) + 1) →
     Tool.edit_document resolve fs file_name inserts
       = (Returned (out_of_range_message line_number), fs)) ∧
  ((Tool.edit_document resolve fs file_name inserts).2 ≠ fs →
     ∃ lines,
       apply_inserts (readlines (Tool.universal_newlines raw)) (Py.sorted inserts)
         = inl lines ∧
       Tool.edit_document resolve fs file_name inserts
         = (Returned (edited_message file_name),
            <[key := writelines lines]> fs)) ∧
  (inserts = [] →
     Tool.edit_document resolve fs file_name inserts
       = (Returned (edited_message file_name),
          <[key := Tool.universal_newlines raw]> fs) ∧
     ((Tool.edit_document resolve fs file_name inserts).2 = fs
      ↔ no_carriage_return raw)).
Proof.
  intros Hresolve Hfile.
  rewrite (tool_edit_document_unfold _ _ _ key raw) by done. split_and!.
  - intros before k text after lines Hsorted Hbefore Hk.
    assert (apply_inserts (readlines (Tool.universal_newlines raw))
              (Py.sorted inserts) = inr k) as ->; [|done].
    apply apply_inserts_stops. eauto 10.
  - destruct (apply_inserts _ _) as [lines|k]; simpl; [eauto|done].
  - intros ->. change (Py.sorted []) with (@nil (Z * string)). simpl.
    rewrite writelines_readlines. split; [done|].
    rewrite <-universal_newlines_id_iff. split.
    + intros Hsame.
      assert (<[key := Tool.universal_newlines raw]> fs !! key = fs !! key) as Hkey
        by by rewrite Hsame.
      rewrite lookup_insert_eq, Hfile in Hkey. by injection Hkey.
    + intros ->. by apply insert_id.
Qed.

Lemma edit_document_atomic_on_disk_witness :
  let fs : Tool.files := {[ "notes.txt" := "a" +:+ newline ]} in
  Tool.edit_document Tool.AtFile fs "notes.txt" [(5, "X"); (1, "Y")]
    = (Returned "Error: Line number 5 is out of range.", fs) ∧
  (Tool.edit_document Tool.AtFile fs "notes.txt" []).2 = fs.
Proof.
  intros fs.
  assert (Tool.AtFile "notes.txt" = Tool.AtFile "notes.txt") as Hresolve
    by reflexivity.
  assert (fs !! "notes.txt" = Some ("a" +:+ newline)) as Hfile by reflexivity.
  destruct (edit_document_atomic_on_disk Tool.AtFile fs "notes.txt" _ _
              [(5, "X"); (1, "Y")] Hresolve Hfile) as (Hstop & _ & _).
  destruct (edit_document_atomic_on_disk Tool.AtFile fs "notes.txt" _ _
              [] Hresolve Hfile) as (_ & _ & Hempty).
  split.
  - apply (Hstop [(1, "Y")] 5 "X" [] ["Y" +:+ newline; "a" +:+ newline]);
      [reflexivity|reflexivity|]. simpl. lia.
  - destruct (Hempty eq_refl) as [_ Hsame]. apply Hsame.
    unfold no_carriage_return. compute_done.
Defined.

(** C3: for every file and every start index that is given, [read_document]
    sets the start to 0 before slicing: the call with [start = s] returns
    what the call with [start = 0] returns (and what the call without a start
    returns), a join of a leading part of the file's lines. *)
Theorem read_document_start_forced_to_zero wd file_name (s : Z) (e : option Z) :
  read_document wd file_name (Some s) e = read_document wd file_name (Some 0) e ∧
  read_document wd file_name (Some s) e = read_document wd file_name None e ∧
  match wd !! file_name with
  | Some content =>
      ∃ n, read_document wd file_name (Some s) e
           = Returned (Py.join newline (take n (readlines content)))
  | None => read_document wd file_name (Some s) e = Raised FileNotFoundError
  end.
Proof.
  unfold read_document. destruct (wd !! file_name) as [content|]; [|done].
  destruct (slice_from_zero (readlines content) e) as [Hnone [n Htake]].
  split_and!; [done|by rewrite Hnone|]. exists n. by rewrite Htake.
Qed.

(** C5: for every query, with no retriever configured
    ([complaint_retriever] is [None]) [reference_previous_responses] returns
    the sentinel string and does not raise; the world is left as it was. *)
Theorem reference_previous_responses_without_retriever {W} (query : string) (w : W) :
  reference_previous_responses None query w
    = (Returned (VStr "No complaint retriever available"), w).
Proof. reflexivity. Qed.

(** C4: for every final state of a team graph whose message list is not
    empty, [join_graph] returns a delta with the one key [messages], holding
    exactly one message, the last one; of five messages only the fifth is
    kept. *)
Theorem join_graph_keeps_last_message (response : state) (messages : list value) :
  response !! "messages" = Some (VList messages) →
  messages ≠ [] →
  (∃ m, last messages = Some m ∧
     join_graph response = Returned {[ "messages" := VList [m] ]} ∧
     dom ({[ "messages" := VList [m] ]} : state) = {[ "messages" ]}) ∧
  (∀ m1 m2 m3 m4 m5, messages = [m1; m2; m3; m4; m5] →
     join_graph response = Returned {[ "messages" := VList [m5] ]}).
Proof.
  intros Hmsgs Hne. unfold join_graph, getitem. rewrite Hmsgs. simpl. split.
  - destruct (last messages) as [m|] eqn:Hlast.
    + exists m. split_and!; [done..|]. apply dom_singleton_L.
    + by apply last_None in Hlast.
  - by intros m1 m2 m3 m4 m5 ->.
Qed.

Lemma join_graph_keeps_last_message_witness :
  let said (text : string) := VMsg (HumanMessage text (Some "Search")) in
  let transcript := [said "one"; said "two"; said "three"; said "four"; said "five"] in
  join_graph {[ "messages" := VList transcript; "next" := VStr "FINISH" ]}
    = Returned {[ "messages" := VList [said "five"] ]}.
Proof.
  intros said transcript.
  assert (({[ "messages" := VList transcript; "next" := VStr "FINISH" ]} : state)
            !! "messages" = Some (VList transcript)) as Hmsgs by done.
  assert (transcript ≠ []) as Hne by done.
  destruct (join_graph_keeps_last_message _ _ Hmsgs Hne) as [_ Hfive].
  by eapply Hfive.
Defined.

(** ** The merge of a delta into the state *)

Lemma reducer_of_team_state cls field :
  cls ∈ team_state_classes →
  reducer_of cls field =
  if decide (field = "messages") then Some operator_add else None.
Proof.
  unfold team_state_classes. rewrite !elem_of_cons, elem_of_nil.
  intros [->|[->|[->|[]]]]; unfold reducer_of; simpl;
    repeat (rewrite lookup_insert; case_decide; subst; simpl; try done);
    by case_decide.
Qed.

Lemma merge_lookup cls s delta s' :
  merge cls s delta = Returned s' →
  ∀ k, s' !! k =
       match delta !! k with
       | Some new => merge_field cls (s !! k) k new
       | None => s !! k
       end.
Proof.
  unfold merge. case_decide as Hall; [|done]. intros [= <-] k.
  rewrite lookup_union, map_lookup_imap.
  destruct (delta !! k) as [new|] eqn:Hk; simpl.
  - destruct (Hall k new Hk) as [v ->]. by destruct (s !! k).
  - by destruct (s !! k).
Qed.

Lemma merge_defined cls s delta s' :
  merge cls s delta = Returned s' →
  ∀ k new, delta !! k = Some new → is_Some (merge_field cls (s !! k) k new).
Proof. unfold merge. case_decide as Hall; [|done]. intros _. exact Hall. Qed.

Lemma merge_returns cls s delta :
  (∀ k new, delta !! k = Some new → is_Some (merge_field cls (s !! k) k new)) →
  ∃ s', merge cls s delta = Returned s'.
Proof. intros Hall. unfold merge. rewrite decide_True by done. eauto. Qed.

(** One merge into a state of a team graph: the message list of the delta
    goes behind the messages that are there, every other field of the delta
    replaces the old one. *)
Lemma merge_team_state cls s delta s' old :
  cls ∈ team_state_classes →
  s !! "messages" = Some (VList old) →
  merge cls s delta = Returned s' →
  (∃ new, s' !! "messages" = Some (VList (old ++ new)) ∧
     (delta !! "messages" = Some (VList new) ∨
      delta !! "messages" = None ∧ new = [])) ∧
  (∀ k, k ≠ "messages" →
     s' !! k = match delta !! k with Some v => Some v | None => s !! k end).
Proof.
  intros Hcls Hold Hmerge. pose proof (merge_lookup _ _ _ _ Hmerge) as Hlook.
  pose proof (merge_defined _ _ _ _ Hmerge) as Hdef.
  split.
  - specialize (Hlook "messages"). specialize (Hdef "messages").
    rewrite Hold in Hlook, Hdef. unfold merge_field in Hlook, Hdef.
    rewrite (reducer_of_team_state _ _ Hcls), decide_True in Hlook, Hdef by done.
    destruct (delta !! "messages") as [new|].
    + destruct (Hdef new eq_refl) as [v Hv].
      destruct new as [| | | |new|]; simplify_eq/=. eauto.
    + exists []. rewrite app_nil_r. eauto.
  - intros k Hk. rewrite (Hlook k). unfold merge_field.
    rewrite (reducer_of_team_state _ _ Hcls), decide_False by done.
    done.
Qed.

Lemma merge_team_state_returns cls s delta old :
  cls ∈ team_state_classes →
  s !! "messages" = Some (VList old) →
  (delta !! "messages" = None ∨ ∃ new, delta !! "messages" = Some (VList new)) →
  ∃ s', merge cls s delta = Returned s'.
Proof.
  intros Hcls Hold Hdelta. apply merge_returns. intros k v Hk.
  unfold merge_field. rewrite (reducer_of_team_state _ _ Hcls).
  case_decide as Hmsg; [|by destruct (s !! k)]. subst k. rewrite Hold.
  destruct Hdelta as [Hnone|[new Hnew]]; simplify_eq/=. eauto.
Qed.

(** ** Runs of a graph *)

(** Case analysis on the matches of one step of [run]. *)
Ltac run_step H :=
  simpl in H;
  repeat match type of H with
         | context [match ?x with _ => _ end] =>
             let E := fresh "E" in destruct x eqn:E; simplify_eq/=
         end.

Section runs.
Context {W : Type} (g : StateGraph W).

(** The trace of a run from [n] is empty or starts with [n]. *)
Lemma run_trace_head limit n s w :
  (run g limit n s w).1.1 = [] ∨ ∃ tl, (run g limit n s w).1.1 = n :: tl.
Proof.
  destruct limit as [|limit]; simpl; [by left|].
  repeat match goal with
         | |- context [match ?x with _ => _ end] => destruct x; simpl
         end; eauto.
Qed.

(** Across the steps of a run the message list only grows at its end. *)
Lemma run_messages_grow limit : ∀ n s w trace s' w' old,
  state_class g ∈ team_state_classes →
  s !! "messages" = Some (VList old) →
  run g limit n s w = (trace, Returned s', w') →
  ∃ new, s' !! "messages" = Some (VList (old ++ new)).
Proof.
  induction limit as [|limit IH]; intros n s w trace s' w' old Hcls Hold Hrun;
    [done|].
  run_step Hrun.
  - match goal with Hm : merge _ _ _ = Returned _ |- _ =>
      destruct (merge_team_state _ _ _ _ _ Hcls Hold Hm) as [(new & Hnew & _) _]
    end.
    match goal with Hr : run _ _ _ _ _ = _ |- _ =>
      destruct (IH _ _ _ _ _ _ _ Hcls Hnew Hr) as [new' Hnew']
    end.
    exists (new ++ new'). by rewrite app_assoc.
  - match goal with Hm : merge _ _ _ = Returned _ |- _ =>
      destruct (merge_team_state _ _ _ _ _ Hcls Hold Hm) as [(new & Hnew & _) _]
    end.
    eauto.
Qed.
End runs.

(** C6: for every conversation state and every graph step, the merge rule
    puts the message list that the step returns behind the one that is
    there and replaces every other field that the step returns; so across
    the steps of a run the message list never gets shorter and the messages
    that are there stay, at their places.  (The merge is the executor's; it
    is taken from the spec, with the reducers of the state classes.) *)
Theorem merge_appends_messages cls (s : state) (old : list value) :
  cls ∈ team_state_classes →
  s !! "messages" = Some (VList old) →
  (∀ delta,
     (delta !! "messages" = None ∨ ∃ new, delta !! "messages" = Some (VList new)) →
     ∃ s', merge cls s delta = Returned s') ∧
  (∀ delta s', merge cls s delta = Returned s' →
     ∃ new,
       s' !! "messages" = Some (VList (old ++ new)) ∧
       (delta !! "messages" = Some (VList new) ∨
        delta !! "messages" = None ∧ new = []) ∧
       (length old ≤ length (old ++ new))%nat ∧
       (∀ (i : nat) m, old !! i = Some m → (old ++ new) !! i = Some m) ∧
       (∀ k, k ≠ "messages" →
          s' !! k = match delta !! k with Some v => Some v | None => s !! k end)) ∧
  (∀ W (g : StateGraph W) limit n w trace s' w',
     state_class g = cls →
     run g limit n s w = (trace, Returned s', w') →
     ∃ new,
       s' !! "messages" = Some (VList (old ++ new)) ∧
       (length old ≤ length (old ++ new))%nat ∧
       (∀ (i : nat) m, old !! i = Some m → (old ++ new) !! i = Some m)).
Proof.
  intros Hcls Hold. split_and!.
  - intros delta Hdelta. by eapply merge_team_state_returns.
  - intros delta s' Hmerge.
    destruct (merge_team_state _ _ _ _ _ Hcls Hold Hmerge)
      as [(new & Hnew & Hfrom) Hother].
    exists new. split_and!; [done..| | |done].
    + rewrite length_app. lia.
    + intros i m Hi. by apply lookup_app_l_Some.
  - intros W g limit n w trace s' w' Hg Hrun. subst cls.
    destruct (run_messages_grow g limit _ _ _ _ _ _ _ Hcls Hold Hrun) as [new Hnew].
    exists new. split_and!; [done| |].
    + rewrite length_app. lia.
    + intros i m Hi. by apply lookup_app_l_Some.
Qed.

Lemma merge_appends_messages_witness :
  let said (text : string) := VMsg (HumanMessage text None) in
  let s : state := {[ "messages" := VList [said "question"]; "next" := VStr "Search" ]} in
  let delta : state := {[ "messages" := VList [said "answer"] ]} in
  ∃ s', merge ResearchTeamState s delta = Returned s' ∧
        s' !! "messages" = Some (VList [said "question"; said "answer"]) ∧
        s' !! "next" = Some (VStr "Search").
Proof.
  intros said s delta.
  assert (ResearchTeamState ∈ team_state_classes) as Hcls by (unfold team_state_classes; set_solver).
  assert (s !! "messages" = Some (VList [said "question"])) as Hold by done.
  destruct (merge_appends_messages _ _ _ Hcls Hold) as (Hreturns & Hstep & _).
  destruct (Hreturns delta) as [s' Hs']; [right; by exists [said "answer"]|].
  exists s'. split; [done|].
  destruct (Hstep delta s' Hs') as (new & Hnew & Hfrom & _ & _ & Hother).
  split.
  - destruct Hfrom as [Hfrom|[Hfrom _]]; [|done].
    rewrite Hnew. by injection Hfrom as <-.
  - by rewrite (Hother "next").
Defined.

(** ** The star shape of the graphs *)

Section star.
Context {W : Type} (g : StateGraph W).

Lemma star_fired n s :
  star g → is_Some (nodes g !! n) → n ≠ "supervisor" →
  fired g n s = Returned [Node "supervisor"].
Proof.
  intros Hstar Hn Hne. destruct (Hstar n Hn Hne) as [He Hb].
  unfold fired. by rewrite He, Hb.
Qed.

Lemma star_trace limit : ∀ n s w (i : nat) a b,
  star g →
  (run g limit n s w).1.1 !! i = Some a →
  (run g limit n s w).1.1 !! S i = Some b →
  a ≠ "supervisor" → b = "supervisor".
Proof.
  induction limit as [|limit IH]; intros n s w i a b Hstar; [done|].
  simpl. destruct (nodes g !! n) as [action|] eqn:Hnode; [|done].
  destruct (action s w) as [[delta|e] w1]; [|done].
  destruct (merge _ s delta) as [s1|e]; [|done].
  destruct (fired g n s1) as [[|[m|] [|??]]|e] eqn:Hfired; try done.
  pose proof (run_trace_head g limit m s1 w1) as Hhead.
  specialize (IH m s1 w1).
  destruct (run g limit m s1 w1) as [[trace r] w2]. simpl in *.
  destruct i as [|i]; simpl.
  - intros [= <-] Hb Ha.
    rewrite star_fired in Hfired by eauto. simplify_eq.
    destruct Hhead as [->|[tl ->]]; by simplify_eq/=.
  - intros Ha Hb. by eapply IH.
Qed.
End star.

Lemma research_graph_star {W} (llm : RouteRequest → M W Reply) search_agent research_agent :
  star (create_research_graph llm search_agent research_agent).
Proof.
  intros n [action Hn] Hne. simpl in Hn.
  repeat (rewrite lookup_insert in Hn; case_decide; subst; [by vm_compute|]).
  by rewrite lookup_empty in Hn.
Qed.

Lemma authoring_graph_star {W} (llm : RouteRequest → M W Reply)
    doc_writer note_taker copy_editor dopeness_editor :
  star (create_authoring_graph llm doc_writer note_taker copy_editor dopeness_editor).
Proof.
  intros n [action Hn] Hne. simpl in Hn.
  repeat (rewrite lookup_insert in Hn; case_decide; subst; [by vm_compute|]).
  by rewrite lookup_empty in Hn.
Qed.

Lemma supervisor_graph_star {W} (llm : RouteRequest → M W Reply)
    research_chain authoring_chain :
  star (create_supervisor_graph llm research_chain authoring_chain).
Proof.
  intros n [action Hn] Hne. simpl in Hn.
  repeat (rewrite lookup_insert in Hn; case_decide; subst; [by vm_compute|]).
  by rewrite lookup_empty in Hn.
Qed.

(** C7: in every run of a team graph (research team, authoring team and the
    top-level graph), every transition out of a worker node goes, without a
    condition, back to the supervisor of that graph: all edges lead to the
    supervisor, the conditional edges start at the supervisor only, after a
    worker the one transition that fires is the one to the supervisor, and in
    the sequence of nodes of a run a worker is followed by the supervisor.
    (What fires and how a run proceeds is the executor's, taken from the
    spec; the wiring is that of the graph files.) *)
Theorem workers_return_to_supervisor {W} (llm : RouteRequest → M W Reply)
    (search_agent research_agent : state → M W state)
    (doc_writer note_taker copy_editor dopeness_editor : state → M W state)
    (research_chain authoring_chain : string → M W state) (g : StateGraph W) :
  g ∈ [create_research_graph llm search_agent research_agent;
       create_authoring_graph llm doc_writer note_taker copy_editor dopeness_editor;
       create_supervisor_graph llm research_chain authoring_chain] →
  (∀ a b, (a, b) ∈ edges g → is_Some (nodes g !! a) ∧ a ≠ "supervisor" ∧ b = "supervisor") ∧
  (∀ source branch, (source, branch) ∈ branches g → source = "supervisor") ∧
  (∀ n s, is_Some (nodes g !! n) → n ≠ "supervisor" →
     fired g n s = Returned [Node "supervisor"]) ∧
  (∀ limit n s w (i : nat) a b,
     (run g limit n s w).1.1 !! i = Some a →
     (run g limit n s w).1.1 !! S i = Some b →
     a ≠ "supervisor" → b = "supervisor").
Proof.
  intros Hg.
  assert (star g) as Hstar.
  { rewrite !elem_of_cons, elem_of_nil in Hg. destruct Hg as [->|[->|[->|[]]]].
    - apply research_graph_star.
    - apply authoring_graph_star.
    - apply supervisor_graph_star. }
  split_and!.
  - intros a b Hin. rewrite !elem_of_cons, elem_of_nil in Hg.
    destruct Hg as [->|[->|[->|[]]]]; simpl in Hin;
      rewrite !elem_of_cons, elem_of_nil in Hin;
      repeat (destruct Hin as [Hin|Hin]; [by simplify_eq|]); done.
  - intros source branch Hin. rewrite !elem_of_cons, elem_of_nil in Hg.
    destruct Hg as [->|[->|[->|[]]]]; simpl in Hin;
      rewrite !elem_of_cons, elem_of_nil in Hin;
      repeat (destruct Hin as [Hin|Hin]; [by simplify_eq|]); done.
  - intros n s Hn Hne. by apply star_fired.
  - intros limit n s w i a b. by apply star_trace.
Qed.

Lemma workers_return_to_supervisor_witness :
  let llm : RouteRequest → M nat Reply := λ _ w,
    (Returned (FunctionCall
       {[ "next" := VStr (match w with O => "Search" | _ => "FINISH" end) ]}),
     S w) in
  let agent : state → M nat state := λ _ w,
    (Returned {[ "output" := VStr "found" ]}, w) in
  let chain : string → M nat state := λ message w,
    (Returned (enter_chain message None), w) in
  let g := create_research_graph llm agent agent in
  (run g 10 "supervisor" (enter_chain "question" None) 0%nat).1.1
    = ["supervisor"; "Search"; "supervisor"] ∧
  fired g "Search" ∅ = Returned [Node "supervisor"].
Proof.
  intros llm agent chain g.
  assert (g ∈ [create_research_graph llm agent agent;
               create_authoring_graph llm agent agent agent agent;
               create_supervisor_graph llm chain chain]) as Hg by set_solver.
  destruct (workers_return_to_supervisor _ _ _ _ _ _ _ _ _ _ Hg)
    as (_ & _ & Hfired & _).
  split; [by vm_compute|].
  apply Hfired; [|done]. by eexists.
Defined.

(** ** Routing at the supervisor *)

Section routing.
Context {W : Type} (g : StateGraph W) (members : list string).

Lemma fired_supervisor s :
  routes_by_next g members →
  fired g "supervisor" s =
  match s !! "next" with
  | None => Raised KeyError
  | Some (VStr label) =>
      if decide (label = "FINISH") then Returned [END]
      else if decide (label ∈ members) then Returned [Node label]
      else Raised KeyError
  | Some (VList _ | VDict _) => Raised TypeError
  | Some (VNone | VInt _ | VMsg _) => Raised KeyError
  end.
Proof.
  intros (He & pm & Hb & Hpm). unfold fired. rewrite He, Hb. simpl.
  unfold branch_target, by_next, getitem. simpl.
  destruct (s !! "next") as [[| |label| | |]|]; simpl; try done.
  rewrite Hpm. by repeat case_decide.
Qed.

Lemma fired_supervisor_invalid s v :
  routes_by_next g members →
  s !! "next" = Some v →
  (∀ label, v = VStr label → label ∉ "FINISH" :: members) →
  ∃ e, fired g "supervisor" s = Raised e.
Proof.
  intros Hr Hv Hinvalid. rewrite fired_supervisor, Hv by done.
  destruct v as [| |label| | |]; eauto.
  specialize (Hinvalid label eq_refl).
  rewrite not_elem_of_cons in Hinvalid. destruct Hinvalid.
  rewrite !decide_False by done. eauto.
Qed.

Lemma fired_supervisor_valid s ts :
  routes_by_next g members →
  fired g "supervisor" s = Returned ts →
  ∃ label, s !! "next" = Some (VStr label) ∧ label ∈ "FINISH" :: members ∧
           ts = [if decide (label = "FINISH") then END else Node label].
Proof.
  intros Hr. rewrite fired_supervisor by done.
  destruct (s !! "next") as [[| |label| | |]|]; try done.
  exists label. repeat case_decide; simplify_eq; set_solver.
Qed.
End routing.

Ltac solve_routes :=
  split; [done|]; eexists; split; [reflexivity|]; intros label; simpl;
  repeat (rewrite lookup_insert; case_decide; subst; [done|]);
  rewrite lookup_empty, decide_False by done;
  rewrite decide_False; [done|];
  rewrite !not_elem_of_cons; split_and!; [done..|apply not_elem_of_nil].

Lemma research_graph_routes {W} (llm : RouteRequest → M W Reply) search_agent research_agent :
  routes_by_next (create_research_graph llm search_agent research_agent)
    ["Search"; "LoanRetriever"].
Proof. solve_routes. Qed.

Lemma authoring_graph_routes {W} (llm : RouteRequest → M W Reply)
    doc_writer note_taker copy_editor dopeness_editor :
  routes_by_next
    (create_authoring_graph llm doc_writer note_taker copy_editor dopeness_editor)
    ["DocWriter"; "NoteTaker"; "DopenessEditor"; "CopyEditor"].
Proof. solve_routes. Qed.

Lemma supervisor_graph_routes {W} (llm : RouteRequest → M W Reply)
    research_chain authoring_chain :
  routes_by_next (create_supervisor_graph llm research_chain authoring_chain)
    ["Research team"; "Response team"].
Proof. solve_routes. Qed.

Lemma supervisor_passes_reply {W} (llm : RouteRequest → M W Reply)
    system_prompt members (st : state) (w : W) :
  create_team_supervisor llm system_prompt members st w =
  match st !! "messages" with
  | None => (Raised KeyError, w)
  | Some messages =>
      match llm {| system_prompt := system_prompt;
                   team_members := Py.join ", " members;
                   conversation := messages;
                   options := "FINISH" :: members |} w with
      | (Returned (FunctionCall arguments), w') => (Returned arguments, w')
      | (Returned Unparsable, w') => (Raised OutputParserException, w')
      | (Raised e, w') => (Raised e, w')
      end
  end.
Proof.
  unfold create_team_supervisor, mbind, lift, getitem.
  destruct (st !! "messages") as [messages|]; [|done].
  by destruct (llm _ w) as [[[arguments|]|e] w'].
Qed.

Lemma run_unfold {W} (g : StateGraph W) limit n s w :
  run g (S limit) n s w =
  match nodes g !! n with
  | None => ([], Raised KeyError, w)
  | Some action =>
      match (action : state → M W state) s w with
      | (Raised e, w') => ([n], Raised e, w')
      | (Returned delta, w') =>
          match merge (state_class g) s delta with
          | Raised e => ([n], Raised e, w')
          | Returned s' =>
              match fired g n s' with
              | Raised e => ([n], Raised e, w')
              | Returned [END] => ([n], Returned s', w')
              | Returned [Node m] =>
                  let '(trace, r, w'') := run g limit m s' w' in
                  (n :: trace, r, w'')
              | Returned _ => ([n], Raised (ExternalError "fan-out"), w')
              end
          end
      end
  end.
Proof. reflexivity. Qed.

(** C8, as the claim states it, fails in its second half: what the model
    answers is not checked before a transition is picked.  Here the second
    answer holds no [next] at all; the supervisor returns it as its delta,
    the routing decision of the step before stays, and the run goes to
    [Search] once more and ends without an error. *)
Lemma supervisor_reply_is_not_validated :
  let llm : RouteRequest → M nat Reply := λ _ w,
    (Returned (FunctionCall
       match w with
       | O => {[ "next" := VStr "Search" ]}
       | 1%nat => ∅
       | _ => {[ "next" := VStr "FINISH" ]}
       end), S w) in
  let agent : state → M nat state := λ _ w,
    (Returned {[ "output" := VStr "found" ]}, w) in
  let g := create_research_graph llm agent agent in
  create_research_supervisor llm None (enter_chain "question" None) 1%nat
    = (Returned ∅, 2%nat) ∧
  ∃ final,
    run g 10 "supervisor" (enter_chain "question" None) 0%nat
      = (["supervisor"; "Search"; "supervisor"; "Search"; "supervisor"],
         Returned final, 3%nat).
Proof.
  split; [reflexivity|]. eexists. vm_compute. reflexivity.
Qed.

(** C8 (amended): a routing decision outside the declared members and the
    terminal label makes the graph raise; it is not routed to a default
    node.  For each of the three graphs, whose supervisor is declared with
    [members]: with such a value in [next] the transition out of the
    supervisor raises; whenever a transition is picked, [next] is a declared
    label and the target is its node (or the end, for [FINISH]); and when the
    model's reply to the supervisor holds such a value under [next], the run
    stops at the supervisor with an error, before any other node runs.  The
    reply itself is not checked: the supervisor returns its arguments as they
    are, and a reply without [next] leaves the routing decision that the
    state holds.  (The error is that of the lookup in the mapping of the
    conditional edge; how a conditional edge picks is the executor's, taken
    from the spec.) *)
Theorem invalid_routing_decision_raises {W} (llm : RouteRequest → M W Reply)
    (search_agent research_agent : state → M W state)
    (doc_writer note_taker copy_editor dopeness_editor : state → M W state)
    (research_chain authoring_chain : string → M W state)
    (g : StateGraph W) (members : list string) :
  (g, members) ∈
    [(create_research_graph llm search_agent research_agent,
      ["Search"; "LoanRetriever"]);
     (create_authoring_graph llm doc_writer note_taker copy_editor dopeness_editor,
      ["DocWriter"; "NoteTaker"; "DopenessEditor"; "CopyEditor"]);
     (create_supervisor_graph llm research_chain authoring_chain,
      ["Research team"; "Response team"])] →
  (∃ system_prompt,
     nodes g !! "supervisor"
       = Some (create_team_supervisor llm system_prompt members)) ∧
  (∀ s v,
     s !! "next" = Some v →
     (∀ label, v = VStr label → label ∉ "FINISH" :: members) →
     ∃ e, fired g "supervisor" s = Raised e) ∧
  (∀ s ts,
     fired g "supervisor" s = Returned ts →
     ∃ label, s !! "next" = Some (VStr label) ∧ label ∈ "FINISH" :: members ∧
              ts = [if decide (label = "FINISH") then END else Node label]) ∧
  (∀ limit s w w' history arguments v,
     s !! "messages" = Some history →
     (∀ request,
        options request = "FINISH" :: members →
        conversation request = history →
        llm request w = (Returned (FunctionCall arguments), w')) →
     arguments !! "next" = Some v →
     (∀ label, v = VStr label → label ∉ "FINISH" :: members) →
     ∃ e, run g (S limit) "supervisor" s w = (["supervisor"], Raised e, w')) ∧
  (∀ s w w' history arguments,
     s !! "messages" = Some history →
     (∀ request,
        options request = "FINISH" :: members →
        conversation request = history →
        llm request w = (Returned (FunctionCall arguments), w')) →
     (∃ supervisor,
        nodes g !! "supervisor" = Some supervisor ∧
        supervisor s w = (Returned arguments, w')) ∧
     (arguments !! "next" = None →
      ∀ s', merge (state_class g) s arguments = Returned s' →
        s' !! "next" = s !! "next")).
Proof.
  intros Hg.
  assert (routes_by_next g members ∧ state_class g ∈ team_state_classes ∧
          ∃ system_prompt, nodes g !! "supervisor"
            = Some (create_team_supervisor llm system_prompt members))
    as (Hroutes & Hcls & system_prompt & Hsup).
  { rewrite !elem_of_cons, elem_of_nil in Hg.
    destruct Hg as [[= -> ->]|[[= -> ->]|[[= -> ->]|[]]]].
    - split_and!; [apply research_graph_routes|simpl; set_solver|by eexists].
    - split_and!; [apply authoring_graph_routes|simpl; set_solver|by eexists].
    - split_and!; [apply supervisor_graph_routes|simpl; set_solver|by eexists]. }
  split_and!.
  - eauto.
  - intros s v. by apply fired_supervisor_invalid.
  - intros s ts. by apply fired_supervisor_valid.
  - intros limit s w w' history arguments v Hhistory Hllm Hv Hinvalid.
    rewrite run_unfold, Hsup, supervisor_passes_reply, Hhistory, Hllm by done.
    destruct (merge (state_class g) s arguments) as [s1|e] eqn:Hmerge; [|eauto].
    assert (s1 !! "next" = Some v) as Hnext.
    { rewrite (merge_lookup _ _ _ _ Hmerge), Hv. unfold merge_field.
      by rewrite (reducer_of_team_state _ _ Hcls). }
    destruct (fired_supervisor_invalid g members s1 v Hroutes Hnext Hinvalid)
      as [e ->].
    eauto.
  - intros s w w' history arguments Hhistory Hllm. split.
    + eexists. split; [exact Hsup|].
      by rewrite supervisor_passes_reply, Hhistory, Hllm.
    + intros Hnone s' Hmerge.
      by rewrite (merge_lookup _ _ _ _ Hmerge), Hnone.
Qed.

Lemma invalid_routing_decision_raises_witness :
  let llm : RouteRequest → M nat Reply := λ _ w,
    (Returned (FunctionCall {[ "next" := VStr "Summarizer" ]}), S w) in
  let agent : state → M nat state := λ _ w,
    (Returned {[ "output" := VStr "found" ]}, w) in
  let chain : string → M nat state := λ message w,
    (Returned (enter_chain message None), w) in
  let g := create_research_graph llm agent agent in
  ∃ e, run g 10 "supervisor" (enter_chain "question" None) 0%nat
       = (["supervisor"], Raised e, 1%nat).
Proof.
  intros llm agent chain g.
  assert ((g, ["Search"; "LoanRetriever"]) ∈
            [(create_research_graph llm agent agent, ["Search"; "LoanRetriever"]);
             (create_authoring_graph llm agent agent agent agent,
              ["DocWriter"; "NoteTaker"; "DopenessEditor"; "CopyEditor"]);
             (create_supervisor_graph llm chain chain,
              ["Research team"; "Response team"])]) as Hg
    by apply list_elem_of_here.
  destruct (invalid_routing_decision_raises _ _ _ _ _ _ _ _ _ _ _ Hg)
    as (_ & _ & _ & Hrun & _).
  apply (Hrun 9%nat (enter_chain "question" None) 0%nat 1%nat
           (VList [VMsg (HumanMessage "question" None)])
           {[ "next" := VStr "Summarizer" ]} (VStr "Summarizer")); [done..|].
  intros label [= <-]. rewrite !not_elem_of_cons.
  split_and!; [done..|apply not_elem_of_nil].
Defined.

(** C9, as the claim states it, fails: the supervisor returns the
    arguments of the model's call as they are, so a call that holds a
    message list beside [next] gives a delta that holds it too. *)
Lemma supervisor_returns_extra_fields :
  let note := VMsg (HumanMessage "also this" (Some "Search")) in
  let arguments : state := {[ "next" := VStr "Search"; "messages" := VList [note] ]} in
  let llm : RouteRequest → M nat Reply := λ _ w,
    (Returned (FunctionCall arguments), S w) in
  ∃ delta,
    create_team_supervisor llm "You are a supervisor." ["Search"; "LoanRetriever"]
      (enter_chain "question" None) 0%nat = (Returned delta, 1%nat) ∧
    delta !! "messages" = Some (VList [note]) ∧
    dom delta ≠ {[ "next" ]}.
Proof.
  intros note arguments llm. exists arguments. split_and!; [done..|].
  intros Hdom.
  assert ("messages" ∈ dom arguments) as Hin by (apply elem_of_dom; by eexists).
  rewrite Hdom in Hin. by apply elem_of_singleton in Hin.
Qed.

(** C9 (amended): for every invocation of a supervisor, the delta that it
    returns is the arguments of the model's call of [route], nothing added
    and nothing taken away: the supervisor returns a delta exactly when the
    state has messages and the model, asked with [FINISH] and the members as
    options, answers with a call, and the delta is then what the call holds.
    So the delta sets a field exactly when the call holds it: when the call
    holds [next] only, as the function is declared, the delta sets [next]
    only and holds no message. *)
Theorem supervisor_returns_reply_arguments {W} (llm : RouteRequest → M W Reply)
    (system_prompt : string) (members : list string) (st : state) (w : W) :
  (∀ delta w',
     create_team_supervisor llm system_prompt members st w = (Returned delta, w') ↔
     ∃ history,
       st !! "messages" = Some history ∧
       llm {| Agents.system_prompt := system_prompt;
              team_members := Py.join ", " members;
              conversation := history;
              options := "FINISH" :: members |} w
         = (Returned (FunctionCall delta), w')) ∧
  (∀ history arguments w',
     st !! "messages" = Some history →
     llm {| Agents.system_prompt := system_prompt;
            team_members := Py.join ", " members;
            conversation := history;
            options := "FINISH" :: members |} w
       = (Returned (FunctionCall arguments), w') →
     ∃ delta,
       create_team_supervisor llm system_prompt members st w = (Returned delta, w') ∧
       (∀ field, delta !! field = arguments !! field) ∧
       (dom delta = {[ "next" ]} ↔ dom arguments = {[ "next" ]}) ∧
       (delta !! "messages" = None ↔ arguments !! "messages" = None)).
Proof.
  split.
  - intros delta w'. rewrite supervisor_passes_reply.
    destruct (st !! "messages") as [messages|]; [|split; [done|by intros (? & ? & ?)]].
    split.
    + destruct (llm _ w) as [[[arguments|]|e] w1] eqn:Hllm; [|done..].
      intros [= <- <-]. eauto.
    + intros (history & [= <-] & ->). done.
  - intros history arguments w' Hhistory Hllm. exists arguments.
    by rewrite supervisor_passes_reply, Hhistory, Hllm.
Qed.

Lemma supervisor_returns_reply_arguments_witness :
  let llm : RouteRequest → M nat Reply := λ _ w,
    (Returned (FunctionCall {[ "next" := VStr "Search" ]}), S w) in
  let st : state := enter_chain "question" None in
  create_team_supervisor llm "You are a supervisor." ["Search"; "LoanRetriever"] st 0%nat
    = (Returned {[ "next" := VStr "Search" ]}, 1%nat).
Proof.
  intros llm st.
  destruct (supervisor_returns_reply_arguments llm "You are a supervisor."
              ["Search"; "LoanRetriever"] st 0%nat) as [Hreturns _].
  apply Hreturns. exists (VList [VMsg (HumanMessage "question" None)]).
  split; reflexivity.
Defined.

(** * Further properties of the code *)

(** ** Texts and lines *)

Lemma string_app_cons c (s t : string) : String c s +:+ t = String c (s +:+ t).
Proof. reflexivity. Qed.

Lemma string_app_assoc (a b c : string) : (a +:+ b) +:+ c = a +:+ (b +:+ c).
Proof.
  induction a as [|x a IH]; [done|]. by rewrite !string_app_cons, IH.
Qed.

Lemma string_length_app (a b : string) :
  String.length (a +:+ b) = (String.length a + String.length b)%nat.
Proof.
  induction a as [|x a IH]; [done|]. rewrite string_app_cons. simpl. by rewrite IH.
Qed.

Lemma chars_app (a b : string) : chars (a +:+ b) = chars a ++ chars b.
Proof.
  unfold chars. induction a as [|x a IH]; [done|].
  rewrite string_app_cons. simpl. by rewrite IH.
Qed.

Lemma no_newline_app (a b : string) :
  no_newline (a +:+ b) ↔ no_newline a ∧ no_newline b.
Proof. unfold no_newline. rewrite chars_app, not_elem_of_app. done. Qed.

Lemma no_newline_cons c (s : string) :
  no_newline (String c s) ↔ c ≠ "010"%char ∧ no_newline s.
Proof.
  unfold no_newline, chars. simpl. rewrite not_elem_of_cons.
  split; intros [? ?]; by split.
Qed.

Lemma readlines_empty_iff s : readlines s = [] ↔ s = "".
Proof.
  split; [|by intros ->]. destruct s as [|c s]; [done|]. simpl.
  destruct (Ascii.eqb c "010"); [done|]. by destruct (readlines s).
Qed.

(** A text up to its first line feed is the first line. *)
Lemma readlines_terminated (l rest : string) :
  no_newline l →
  readlines (l +:+ newline +:+ rest) = (l +:+ newline) :: readlines rest.
Proof.
  induction l as [|c l IH]; intros Hl; [done|].
  apply no_newline_cons in Hl as [Hc Hl].
  rewrite !string_app_cons. simpl.
  destruct (Ascii.eqb_spec c "010") as [?|_]; [done|].
  by rewrite (IH Hl).
Qed.

(** A text without line feed that is not empty is one line. *)
Lemma readlines_unterminated (l : string) :
  no_newline l → l ≠ "" → readlines l = [l].
Proof.
  induction l as [|c l IH]; intros Hl Hne; [done|].
  apply no_newline_cons in Hl as [Hc Hl]. simpl.
  destruct (Ascii.eqb_spec c "010") as [?|_]; [done|].
  destruct l as [|c' l]; [done|]. by rewrite (IH Hl).
Qed.

Lemma writelines_app (a b : list string) :
  writelines (a ++ b) = writelines a +:+ writelines b.
Proof.
  unfold writelines. induction a as [|l a IH]; [done|]. simpl.
  by rewrite IH, string_app_assoc.
Qed.

Lemma writelines_length (lines : list string) :
  String.length (writelines lines) = sum_list (String.length <$> lines).
Proof.
  unfold writelines. induction lines as [|l lines IH]; [done|]. simpl.
  by rewrite string_length_app, IH.
Qed.

Lemma join_newline_length (lines : list string) :
  String.length (Py.join newline lines)
  = (sum_list (String.length <$> lines) + pred (length lines))%nat.
Proof.
  induction lines as [|l [|l' lines] IH]; [done|simpl; lia|].
  change (Py.join newline (l :: l' :: lines))
    with (l +:+ newline +:+ Py.join newline (l' :: lines)).
  rewrite !string_length_app, IH. simpl. lia.
Qed.

Lemma slice_whole {A} (l : list A) (start : option Z) :
  start = None ∨ start = Some 0 → Py.slice l start None = l.
Proof.
  intros [->| ->]; unfold Py.slice, Py.adjust; simpl;
    rewrite ?Z.min_l by lia; rewrite Z.sub_0_r, Nat2Z.id, drop_0;
    by apply take_ge.
Qed.

Lemma read_document_unfold wd file_name content (start end_ : option Z) :
  wd !! file_name = Some content →
  read_document wd file_name start end_ =
  Returned (Py.join newline
    (Py.slice (readlines content)
       (match start with Some _ => Some 0 | None => None end) end_)).
Proof. intros H. unfold read_document. by rewrite H. Qed.

(** X1: [write_document] overwrites the file that the name leads to.
    After it the file holds the content; read through any name that leads to
    it, it comes back as the lines of the content as read, joined; a second
    write replaces the first; every other file is as it was.  For a name
    that [open] refuses, the error is raised and nothing is written. *)
Theorem write_document_then_read (resolve : string → Tool.location)
    (fs : Tool.files) (content file_name : string) :
  (∀ e, resolve file_name = Tool.Refused e →
     Tool.write_document resolve fs content file_name = (Raised e, fs)) ∧
  (∀ key, resolve file_name = Tool.AtFile key →
     let fs' := (Tool.write_document resolve fs content file_name).2 in
     (Tool.write_document resolve fs content file_name).1
       = Returned ("Document saved to " +:+ file_name) ∧
     fs' !! key = Some content ∧
     (∀ name, resolve name = Tool.AtFile key →
        Tool.read_document resolve fs' name None None
          = Returned (Py.join newline
                        (readlines (Tool.universal_newlines content)))) ∧
     (∀ content', (Tool.write_document resolve fs' content' file_name).2
                  = (Tool.write_document resolve fs content' file_name).2) ∧
     (∀ other, other ≠ key → fs' !! other = fs !! other)).
Proof.
  unfold Tool.write_document. split.
  - by intros e ->.
  - intros key ->. simpl. split_and!.
    + done.
    + apply lookup_insert_eq.
    + intros name Hname.
      rewrite (tool_read_document_unfold _ _ _ key content)
        by (done || apply lookup_insert_eq).
      by rewrite slice_whole by auto.
    + intros content'. apply insert_insert_eq.
    + intros other Hother. by apply lookup_insert_ne.
Qed.

Lemma write_document_then_read_witness :
  let resolve : string → Tool.location := λ name,
    if decide (name = "") then Tool.Refused IsADirectoryError
    else if decide (name = "./reply.txt") then Tool.AtFile "reply.txt"
    else Tool.AtFile name in
  let fs : Tool.files := {[ "old.txt" := "x" ]} in
  let text := "Dear customer," +:+ newline +:+ "thank you." in
  Tool.read_document resolve
    (Tool.write_document resolve fs text "./reply.txt").2 "reply.txt" None None
    = Returned ("Dear customer," +:+ newline +:+ newline +:+ "thank you.") ∧
  Tool.write_document resolve fs text "" = (Raised IsADirectoryError, fs).
Proof.
  intros resolve fs text.
  destruct (write_document_then_read resolve fs text "./reply.txt") as [_ Hfile].
  destruct (write_document_then_read resolve fs text "") as [Hrefused _].
  split.
  - destruct (Hfile "reply.txt" eq_refl) as (_ & _ & Hread & _).
    rewrite (Hread "reply.txt" eq_refl). reflexivity.
  - apply Hrefused. reflexivity.
Defined.

(** Lines that each end in their only line feed are read back as they were
    written. *)
Lemma readlines_writelines (lines : list string) :
  Forall (λ l, ∃ body, l = body +:+ newline ∧ no_newline body) lines →
  readlines (writelines lines) = lines.
Proof.
  induction 1 as [|l lines (body & -> & Hbody) _ IH]; [done|].
  change (writelines ((body +:+ newline) :: lines))
    with ((body +:+ newline) +:+ writelines lines).
  by rewrite string_app_assoc, readlines_terminated, IH.
Qed.

Lemma pretty_N_go_chars (c : ascii) (x : N) (s : string) :
  (∀ d, pretty_N_char d ≠ c) → c ∉ chars s → c ∉ chars (pretty_N_go x s).
Proof.
  intros Hdigit. revert s.
  induction (N.lt_wf_0 x) as [x _ IH]; intros s Hs.
  destruct (decide (0 < x)%N) as [Hx|Hx].
  - rewrite pretty_N_go_step by done. apply IH; [by apply N.div_lt|].
    unfold chars in *. simpl. rewrite not_elem_of_cons. split; [|done].
    intros Heq. by apply (Hdigit (x `mod` 10)%N).
  - assert (x = 0%N) as -> by lia. by rewrite pretty_N_go_0.
Qed.

(** The decimal text of a positive number holds digits only. *)
Lemma pretty_positive_no_newline (z : Z) : 0 < z → no_newline (pretty z).
Proof.
  intros Hz. destruct z as [|p|p]; [lia| |lia].
  unfold pretty, pretty_Z, pretty, pretty_positive, pretty, pretty_N.
  rewrite decide_False by done. apply pretty_N_go_chars.
  - intros d. unfold pretty_N_char. by repeat case_match.
  - unfold chars. simpl. apply not_elem_of_nil.
Qed.

Lemma no_carriage_return_app (a b : string) :
  no_carriage_return (a +:+ b) ↔ no_carriage_return a ∧ no_carriage_return b.
Proof. unfold no_carriage_return. rewrite chars_app, not_elem_of_app. done. Qed.

Lemma pretty_positive_no_carriage_return (z : Z) :
  0 < z → no_carriage_return (pretty z).
Proof.
  intros Hz. destruct z as [|p|p]; [lia| |lia].
  unfold pretty, pretty_Z, pretty, pretty_positive, pretty, pretty_N.
  rewrite decide_False by done. apply pretty_N_go_chars.
  - intros d. unfold pretty_N_char. by repeat case_match.
  - unfold chars. simpl. apply not_elem_of_nil.
Qed.

Lemma writelines_no_carriage_return (lines : list string) :
  Forall no_carriage_return lines → no_carriage_return (writelines lines).
Proof.
  induction 1 as [|l lines Hl _ IH].
  - unfold no_carriage_return, chars. simpl. apply not_elem_of_nil.
  - change (writelines (l :: lines)) with (l +:+ writelines lines).
    by apply no_carriage_return_app.
Qed.

(** X2: [create_outline] writes one numbered line per point into the file
    that the name leads to.  For points that hold no line break, the file
    then reads as as many lines as there are points, line [i + 1] being
    ["{i + 1}. {point}\n"]; whatever the file held before is gone, and every
    other file is as it was.  For a name that [open] refuses, the error is
    raised and nothing is written. *)
Theorem create_outline_then_readlines (resolve : string → Tool.location)
    (fs : Tool.files) (points : list string) (file_name : string) :
  (∀ e, resolve file_name = Tool.Refused e →
     Tool.create_outline resolve fs points file_name = (Raised e, fs)) ∧
  (∀ key, resolve file_name = Tool.AtFile key →
     Forall no_newline points →
     Forall no_carriage_return points →
     (Tool.create_outline resolve fs points file_name).1
       = Returned ("Outline saved to " +:+ file_name) ∧
     (∃ content,
        (Tool.create_outline resolve fs points file_name).2 !! key = Some content ∧
        readlines (Tool.universal_newlines content) = imap outline_line points ∧
        length (readlines (Tool.universal_newlines content)) = length points ∧
        ∀ (i : nat) point, points !! i = Some point →
          readlines (Tool.universal_newlines content) !! i
          = Some (pretty (Z.of_nat i + 1) +:+ ". " +:+ point +:+ newline)) ∧
     (∀ other, other ≠ key →
        (Tool.create_outline resolve fs points file_name).2 !! other = fs !! other)).
Proof.
  unfold Tool.create_outline. split; [by intros e ->|].
  intros key -> Hnl Hcr. simpl. split_and!; [done| |].
  - eexists. split; [apply lookup_insert_eq|].
    assert (Tool.universal_newlines (writelines (imap outline_line points))
            = writelines (imap outline_line points)) as ->.
    { apply universal_newlines_id, writelines_no_carriage_return.
      apply Forall_lookup. intros i l. rewrite list_lookup_imap.
      destruct (points !! i) as [point|] eqn:Hi; [|done]. intros [= <-].
      unfold outline_line. rewrite !no_carriage_return_app. split_and!.
      - apply pretty_positive_no_carriage_return. lia.
      - unfold no_carriage_return. compute_done.
      - by eapply Forall_lookup_1.
      - unfold no_carriage_return. compute_done. }
    assert (readlines (writelines (imap outline_line points))
            = imap outline_line points) as ->.
    { apply readlines_writelines.
      apply Forall_lookup. intros i l. rewrite list_lookup_imap.
      destruct (points !! i) as [point|] eqn:Hi; [|done]. intros [= <-].
      exists (pretty (Z.of_nat i + 1) +:+ ". " +:+ point). split.
      - unfold outline_line. by rewrite !string_app_assoc.
      - rewrite !no_newline_app. split_and!.
        + apply pretty_positive_no_newline. lia.
        + unfold no_newline. compute_done.
        + by eapply Forall_lookup_1. }
    split_and!; [done|by rewrite length_imap|].
    intros i point Hi. by rewrite list_lookup_imap, Hi.
  - intros other Hother. by rewrite lookup_insert_ne.
Qed.

Lemma create_outline_then_readlines_witness :
  let resolve : string → Tool.location := λ name,
    if decide (name = "") then Tool.Refused IsADirectoryError
    else Tool.AtFile name in
  let fs : Tool.files := {[ "outline.txt" := "draft" ]} in
  ∃ content,
    (Tool.create_outline resolve fs ["Greeting"; "Options"] "outline.txt").2
      !! "outline.txt" = Some content ∧
    readlines (Tool.universal_newlines content)
      = ["1. Greeting" +:+ newline; "2. Options" +:+ newline].
Proof.
  intros resolve fs.
  assert (Forall no_newline ["Greeting"; "Options"]) as Hnl.
  { repeat constructor; unfold no_newline; compute_done. }
  assert (Forall no_carriage_return ["Greeting"; "Options"]) as Hcr.
  { repeat constructor; unfold no_carriage_return; compute_done. }
  destruct (create_outline_then_readlines resolve fs ["Greeting"; "Options"]
              "outline.txt") as [_ Hfile].
  destruct (Hfile "outline.txt" eq_refl Hnl Hcr)
    as (_ & (content & Hthere & Hlines & _) & _).
  exists content. split; [exact Hthere|]. rewrite Hlines. reflexivity.
Defined.

(** X3: [read_document] does not give back the text of a file of two or
    more lines: it joins with a line feed the lines that still have their
    own, so every line break but the last comes out doubled, and the result
    is longer than the text by the number of lines minus one.  A file of at
    most one line comes back as it is. *)
Theorem read_document_doubles_line_breaks wd file_name content (start : option Z) :
  wd !! file_name = Some content →
  ∃ result,
    read_document wd file_name start None = Returned result ∧
    String.length result
      = (String.length content + pred (length (readlines content)))%nat ∧
    ((length (readlines content) ≤ 1)%nat → result = content) ∧
    ((2 ≤ length (readlines content))%nat → result ≠ content).
Proof.
  intros Hfile. eexists. split.
  { rewrite (read_document_unfold _ _ content) by done.
    rewrite slice_whole; [done|]. destruct start; auto. }
  assert (String.length (Py.join newline (readlines content))
          = (String.length content + pred (length (readlines content)))%nat) as Hlen.
  { by rewrite join_newline_length, <-writelines_length, writelines_readlines. }
  split_and!; [done| |].
  - intros Hfew. rewrite <-(writelines_readlines content) at 2.
    destruct (readlines content) as [|l [|l' lines]]; simpl in *; [done| |lia].
    unfold writelines. simpl. by rewrite string_app_empty_r.
  - intros Hmany Heq. rewrite Heq in Hlen. lia.
Qed.

Lemma read_document_doubles_line_breaks_witness :
  let text := "one" +:+ newline +:+ "two" +:+ newline in
  let wd : workdir := {[ "notes.txt" := text ]} in
  read_document wd "notes.txt" None None
    = Returned ("one" +:+ newline +:+ newline +:+ "two" +:+ newline) ∧
  ∃ result, read_document wd "notes.txt" None None = Returned result ∧
            String.length result = 9%nat.
Proof.
  intros text wd. split; [reflexivity|].
  assert (wd !! "notes.txt" = Some text) as Hfile by reflexivity.
  destruct (read_document_doubles_line_breaks wd "notes.txt" text None Hfile)
    as (result & Hread & Hlen & _).
  exists result. split; [exact Hread|]. rewrite Hlen. reflexivity.
Defined.

(** X4: the [end] of [read_document] counts lines: with [end = e >= 0] the
    first [e] lines are returned (all of them when there are fewer), with
    [end = e < 0] all but the last [-e] lines (none when there are fewer);
    whatever [start] is given. *)
Theorem read_document_end_counts_lines wd file_name content (start : option Z) (e : Z) :
  wd !! file_name = Some content →
  read_document wd file_name start (Some e) =
  Returned (Py.join newline
    (take (if decide (0 ≤ e) then Z.to_nat e
           else (length (readlines content) - Z.to_nat (- e))%nat)
       (readlines content))).
Proof.
  intros Hfile. rewrite (read_document_unfold _ _ content) by done.
  do 2 f_equal. unfold Py.slice.
  assert (Py.adjust (Z.of_nat (length (readlines content))) 0
            (match start with Some _ => Some 0 | None => None end) = 0) as ->.
  { destruct start; [|done]. simpl. lia. }
  rewrite Z.sub_0_r, drop_0. unfold Py.adjust.
  case_decide as He.
  - destruct (Z.ltb_spec e 0) as [?|_]; [lia|].
    destruct (decide (e ≤ Z.of_nat (length (readlines content)))).
    + by rewrite Z.min_l by lia.
    + rewrite Z.min_r, Nat2Z.id by lia. rewrite !take_ge; [done|lia..].
  - destruct (Z.ltb_spec e 0) as [_|?]; [|lia]. f_equal. lia.
Qed.

Lemma read_document_end_counts_lines_witness :
  let text := "one" +:+ newline +:+ "two" +:+ newline +:+ "three" in
  let wd : workdir := {[ "notes.txt" := text ]} in
  read_document wd "notes.txt" (Some 2) (Some (-1))
    = Returned ("one" +:+ newline +:+ newline +:+ "two" +:+ newline).
Proof.
  intros text wd.
  assert (wd !! "notes.txt" = Some text) as Hfile by reflexivity.
  rewrite (read_document_end_counts_lines wd "notes.txt" text (Some 2) (-1) Hfile).
  reflexivity.
Defined.

(** X5: [edit_document] touches only the file that the name leads to.
    Every other file is as it was and no file is made; when there is no file
    at that place the call raises [FileNotFoundError], whatever the inserts,
    and when there is one it returns a message; for a name that [open]
    refuses, the error is raised and the files are as they were.  Two names
    that lead to the same place leave the same files behind. *)
Theorem edit_document_touches_one_file (resolve : string → Tool.location)
    (fs : Tool.files) (file_name : string) (inserts : list (Z * string)) :
  match resolve file_name with
  | Tool.Refused e =>
      Tool.edit_document resolve fs file_name inserts = (Raised e, fs)
  | Tool.AtFile key =>
      (∀ other, other ≠ key →
         (Tool.edit_document resolve fs file_name inserts).2 !! other
         = fs !! other) ∧
      dom (Tool.edit_document resolve fs file_name inserts).2 = dom fs ∧
      match fs !! key with
      | None =>
          Tool.edit_document resolve fs file_name inserts
            = (Raised FileNotFoundError, fs)
      | Some _ =>
          ∃ message,
            (Tool.edit_document resolve fs file_name inserts).1 = Returned message
      end
  end ∧
  (∀ other_name, resolve other_name = resolve file_name →
     (Tool.edit_document resolve fs other_name inserts).2
     = (Tool.edit_document resolve fs file_name inserts).2).
Proof.
  unfold Tool.edit_document. split.
  - destruct (resolve file_name) as [key|e]; [|done].
    destruct (fs !! key) as [raw|] eqn:Hfile; [|done].
    destruct (apply_inserts _ _) as [lines|k]; simpl.
    + split_and!; [|apply dom_insert_lookup_L|]; eauto.
      intros other Hother. by rewrite lookup_insert_ne.
    + eauto.
  - intros other_name ->.
    destruct (resolve file_name) as [key|e]; [|done].
    destruct (fs !! key) as [raw|]; [|done].
    by destruct (apply_inserts _ _).
Qed.

Lemma edited_is_no_error file_name line_number :
  edited_message file_name ≠ out_of_range_message line_number.
Proof. unfold edited_message, out_of_range_message. by intros [=]. Qed.

(** All inserts are in range exactly when the insert at place [j] of the
    ascending order asks for a line between 1 and the line count plus
    [j + 1]: every earlier insert has made room for one more line. *)
Lemma apply_inserts_succeeds_iff si : ∀ lines,
  (∃ lines', apply_inserts lines si = inl lines') ↔
  ∀ (j : nat) k text, si !! j = Some (k, text) →
    1 ≤ k ≤ Z.of_nat (length lines) + Z.of_nat j + 1.
Proof.
  induction si as [|[k t] si IH]; intros lines; simpl.
  - split; [|eauto]. intros _ j k text Hj. by rewrite lookup_nil in Hj.
  - case_bool_decide as Hk.
    + rewrite IH. split.
      * intros Hrest [|j] k' text Hj; simplify_eq/=; [lia|].
        specialize (Hrest j k' text Hj). rewrite insert_length in Hrest. lia.
      * intros Hall j k' text Hj.
        specialize (Hall (S j) k' text Hj). rewrite insert_length. lia.
    + split; [by intros [? ?]|]. intros Hall.
      specialize (Hall 0%nat k t eq_refl). simpl in Hall. lia.
Qed.

(** X6: [edit_document] succeeds exactly when, in ascending order, the
    insert at place [j] (from 0) asks for a line number between 1 and the
    file's line count plus [j + 1]; so an insert beyond the end of the file
    is accepted when the inserts before it have made the list long enough. *)
Theorem edit_document_succeeds_iff wd file_name content (inserts : list (Z * string)) :
  wd !! file_name = Some content →
  (edit_document wd file_name inserts).1 = Returned (edited_message file_name) ↔
  ∀ (j : nat) k text, Py.sorted inserts !! j = Some (k, text) →
    1 ≤ k ≤ Z.of_nat (length (readlines content)) + Z.of_nat j + 1.
Proof.
  intros Hfile. rewrite <-apply_inserts_succeeds_iff.
  rewrite (edit_document_unfold _ _ content) by done.
  destruct (apply_inserts _ _) as [lines|k]; simpl.
  - split; eauto.
  - split; [|by intros [? ?]]. intros Heq. injection Heq as Heq.
    by destruct (edited_is_no_error file_name k).
Qed.

Lemma edit_document_succeeds_iff_witness :
  let wd : workdir := {[ "notes.txt" := "a" +:+ newline ]} in
  (edit_document wd "notes.txt" [(3, "Z"); (2, "Y")]).1
    = Returned (edited_message "notes.txt") ∧
  (edit_document wd "notes.txt" [(3, "Z")]).1
    ≠ Returned (edited_message "notes.txt").
Proof.
  intros wd.
  assert (wd !! "notes.txt" = Some ("a" +:+ newline)) as Hfile by reflexivity.
  split.
  - apply (edit_document_succeeds_iff wd "notes.txt" _ [(3, "Z"); (2, "Y")] Hfile).
    intros [|[|j]] k text Hj; simplify_eq/=; lia.
  - intros Hok.
    pose proof (proj1 (edit_document_succeeds_iff wd "notes.txt" _ [(3, "Z")] Hfile)
                  Hok 0%nat 3 "Z" eq_refl) as Hrange.
    simpl in Hrange. lia.
Defined.

Lemma edit_document_one_insert wd file_name content (k : Z) (text : string) :
  wd !! file_name = Some content →
  1 ≤ k ≤ Z.of_nat (length (readlines content)) + 1 →
  edit_document wd file_name [(k, text)]
    = (Returned (edited_message file_name),
       <[file_name :=
           writelines (take (Z.to_nat (k - 1)) (readlines content))
           +:+ text +:+ newline
           +:+ writelines (drop (Z.to_nat (k - 1)) (readlines content))]> wd).
Proof.
  intros Hfile Hk.
  rewrite (edit_document_unfold _ _ content) by done.
  change (Py.sorted [(k, text)]) with [(k, text)]. simpl.
  rewrite bool_decide_eq_true_2 by done.
  rewrite insert_in_range by lia.
  rewrite writelines_app.
  change (writelines ((text +:+ newline) :: ?l))
    with ((text +:+ newline) +:+ writelines l).
  by rewrite string_app_assoc.
Qed.

Lemma edit_document_append_text wd file_name content (text : string) :
  wd !! file_name = Some content →
  (edit_document wd file_name
     [(Z.of_nat (length (readlines content)) + 1, text)]).2 !! file_name
  = Some (content +:+ text +:+ newline).
Proof.
  intros Hfile. rewrite (edit_document_one_insert _ _ content) by (done || lia).
  simpl. rewrite lookup_insert_eq.
  replace (Z.to_nat (Z.of_nat (length (readlines content)) + 1 - 1))
    with (length (readlines content)) by lia.
  rewrite firstn_all, drop_all, writelines_readlines.
  change (writelines []) with "". by rewrite string_app_empty_r.
Qed.

(** X7: one insert splits the text at the start of its line: the new text is
    the lines before that line, the inserted text with a line feed, and the
    lines from that line on.  At line 1 the text is put in front of the file;
    at the line after the last it is put behind it. *)
Theorem edit_document_single_insert wd file_name content (k : Z) (text : string) :
  wd !! file_name = Some content →
  1 ≤ k ≤ Z.of_nat (length (readlines content)) + 1 →
  edit_document wd file_name [(k, text)]
    = (Returned (edited_message file_name),
       <[file_name :=
           writelines (take (Z.to_nat (k - 1)) (readlines content))
           +:+ text +:+ newline
           +:+ writelines (drop (Z.to_nat (k - 1)) (readlines content))]> wd) ∧
  (k = 1 →
     (edit_document wd file_name [(k, text)]).2 !! file_name
       = Some (text +:+ newline +:+ content)) ∧
  (k = Z.of_nat (length (readlines content)) + 1 →
     (edit_document wd file_name [(k, text)]).2 !! file_name
       = Some (content +:+ text +:+ newline)).
Proof.
  intros Hfile Hk.
  pose proof (edit_document_one_insert wd file_name content k text Hfile Hk) as Hedit.
  split_and!; [done| |].
  - intros ->. rewrite Hedit. change (Z.to_nat (1 - 1)) with 0%nat.
    rewrite take_0, drop_0, writelines_readlines. simpl.
    by rewrite lookup_insert_eq.
  - intros ->. by apply edit_document_append_text.
Qed.

Lemma edit_document_single_insert_witness :
  let wd : workdir := {[ "notes.txt" := "a" +:+ newline ]} in
  (edit_document wd "notes.txt" [(2, "Z")]).2 !! "notes.txt"
    = Some ("a" +:+ newline +:+ "Z" +:+ newline).
Proof.
  intros wd.
  assert (wd !! "notes.txt" = Some ("a" +:+ newline)) as Hfile by reflexivity.
  destruct (edit_document_single_insert wd "notes.txt" _ 2 "Z" Hfile)
    as (_ & _ & Hlast); [simpl; lia|].
  rewrite Hlast; reflexivity.
Defined.

(** Behind a text that is empty or ends in a line feed, the lines of what
    follows start afresh. *)
Lemma readlines_app_complete (body rest : string) :
  body = "" ∨ (∃ b, body = b +:+ newline) →
  readlines (body +:+ rest) = readlines body ++ readlines rest.
Proof.
  induction body as [|c body IH]; intros Hbody; [done|].
  destruct Hbody as [?|[b Hb]]; [done|].
  assert (body = "" ∨ ∃ b', body = b' +:+ newline) as Hbody'.
  { destruct b as [|c' b'].
    - left. by injection Hb.
    - right. exists b'. by injection Hb. }
  rewrite string_app_cons. simpl.
  destruct (Ascii.eqb_spec c "010") as [->|Hc].
  - by rewrite (IH Hbody').
  - rewrite (IH Hbody').
    destruct (readlines body) as [|l ls] eqn:Hlines; [|done].
    apply readlines_empty_iff in Hlines as ->.
    destruct b as [|c' b']; [by injection Hb as ->|].
    injection Hb as _ Hb. by destruct b'.
Qed.

(** X8: an insert behind a last line that has no line feed does not make a
    line of its own: the text goes straight behind that line, and the file
    has as many lines as before.  (For a last line and a text without line
    feed, and a file text and a text to insert without carriage return, so
    that the file is read afterwards as it was written.) *)
Theorem edit_document_append_joins_open_line wd file_name (body last text : string) :
  wd !! file_name = Some (body +:+ last) →
  body = "" ∨ (∃ b, body = b +:+ newline) →
  no_newline last → last ≠ "" → no_newline text →
  no_carriage_return (body +:+ last) → no_carriage_return text →
  let n := length (readlines (body +:+ last)) in
  (edit_document wd file_name [(Z.of_nat n + 1, text)]).2 !! file_name
    = Some (body +:+ last +:+ text +:+ newline) ∧
  readlines (body +:+ last) = readlines body ++ [last] ∧
  readlines (body +:+ last +:+ text +:+ newline)
    = readlines body ++ [last +:+ text +:+ newline] ∧
  length (readlines (body +:+ last +:+ text +:+ newline)) = n.
Proof.
  intros Hfile Hbody Hlast Hne Htext _ _ n.
  assert (readlines (body +:+ last) = readlines body ++ [last]) as Hold.
  { by rewrite readlines_app_complete, (readlines_unterminated last). }
  assert (readlines (body +:+ last +:+ text +:+ newline)
          = readlines body ++ [last +:+ text +:+ newline]) as Hnew.
  { rewrite readlines_app_complete by done. f_equal.
    assert (no_newline (last +:+ text)) as Hjoined by by apply no_newline_app.
    pose proof (readlines_terminated (last +:+ text) "" Hjoined) as Hline.
    change (newline +:+ "") with newline in Hline.
    by rewrite string_app_assoc in Hline. }
  split_and!; [|done|done|].
  - subst n. rewrite (edit_document_append_text _ _ (body +:+ last)) by done.
    by rewrite string_app_assoc.
  - subst n. by rewrite Hnew, Hold, !length_app.
Qed.

Lemma edit_document_append_joins_open_line_witness :
  let wd : workdir := {[ "notes.txt" := "a" +:+ newline +:+ "b" ]} in
  (edit_document wd "notes.txt" [(3, "Z")]).2 !! "notes.txt"
    = Some ("a" +:+ newline +:+ "bZ" +:+ newline) ∧
  readlines ("a" +:+ newline +:+ "bZ" +:+ newline)
    = ["a" +:+ newline; "bZ" +:+ newline].
Proof.
  intros wd.
  assert (wd !! "notes.txt" = Some (("a" +:+ newline) +:+ "b")) as Hfile
    by reflexivity.
  assert (no_newline "b") as Hb by (unfold no_newline; compute_done).
  assert (no_newline "Z") as Hz by (unfold no_newline; compute_done).
  assert (no_carriage_return (("a" +:+ newline) +:+ "b")) as Hcr
    by (unfold no_carriage_return; compute_done).
  assert (no_carriage_return "Z") as Hzcr
    by (unfold no_carriage_return; compute_done).
  destruct (edit_document_append_joins_open_line wd "notes.txt"
              ("a" +:+ newline) "b" "Z" Hfile) as (Hedit & _ & Hlines & _);
    [right; by exists "a"|exact Hb|discriminate|exact Hz|exact Hcr|exact Hzcr|].
  split; [exact Hedit|exact Hlines].
Defined.

(** ** Node functions and chain adapters *)

(** X9: the state that [enter_chain] makes holds the message as its one and
    last message: [get_last_message] gives the text back, [join_graph] keeps
    that message and nothing else.  It holds [team_members] exactly when a
    list of members that is not empty is given, and it never holds [next]. *)
Theorem enter_chain_round_trip (message : string) (members : option (list string)) :
  get_last_message (enter_chain message members) = Returned message ∧
  join_graph (enter_chain message members)
    = Returned {[ "messages" := VList [VMsg (HumanMessage message None)] ]} ∧
  enter_chain message members !! "team_members"
    = match members with
      | Some (m :: ms) => Some (VStr (Py.join ", " (m :: ms)))
      | Some [] | None => None
      end ∧
  enter_chain message members !! "next" = None.
Proof.
  unfold get_last_message, join_graph, getitem, enter_chain.
  destruct members as [[|m ms]|]; simpl;
    rewrite ?lookup_insert_eq, ?lookup_insert_ne, ?lookup_singleton_eq by done;
    simpl; split_and!; try done.
Qed.

(** X10: what [join_graph] returns has the same last message as the state
    it was given, and one key only; [join_graph] of it is itself. *)
Theorem join_graph_preserves_last_message (response delta : state) :
  join_graph response = Returned delta →
  get_last_message delta = get_last_message response ∧
  join_graph delta = Returned delta ∧
  dom delta = {[ "messages" ]}.
Proof.
  unfold join_graph, get_last_message, getitem.
  destruct (response !! "messages") as [messages|]; [|done]. simpl.
  destruct (getitem_last messages) as [m|e] eqn:Hlast; [|done]. simpl.
  intros [= <-]. rewrite lookup_singleton_eq. simpl.
  split_and!; [done..|]. apply dom_singleton_L.
Qed.

Lemma join_graph_preserves_last_message_witness :
  let said (text : string) := VMsg (HumanMessage text (Some "CopyEditor")) in
  let response : state :=
    {[ "messages" := VList [said "draft"; said "final"]; "next" := VStr "FINISH" ]} in
  get_last_message {[ "messages" := VList [said "final"] ]} = Returned "final" ∧
  get_last_message response = Returned "final".
Proof.
  intros said response.
  assert (join_graph response = Returned {[ "messages" := VList [said "final"] ]})
    as Hjoin by reflexivity.
  destruct (join_graph_preserves_last_message _ _ Hjoin) as (Hsame & _ & _).
  split; [reflexivity|]. rewrite <-Hsame. reflexivity.
Defined.

(** X11: [get_last_message] and [join_graph] raise [KeyError] on a state
    without [messages] and [IndexError] on an empty message list; on a list
    of messages [join_graph] returns exactly when the list is not empty, and
    [get_last_message] then returns the content of the last message. *)
Theorem last_message_errors (st : state) :
  match st !! "messages" with
  | None =>
      join_graph st = Raised KeyError ∧ get_last_message st = Raised KeyError
  | Some (VList []) =>
      join_graph st = Raised IndexError ∧ get_last_message st = Raised IndexError
  | Some (VList (m :: ms)) =>
      (∃ delta, join_graph st = Returned delta) ∧
      ∀ earlier text name,
        m :: ms = earlier ++ [VMsg (HumanMessage text name)] →
        get_last_message st = Returned text
  | Some _ => True
  end.
Proof.
  unfold join_graph, get_last_message, getitem.
  destruct (st !! "messages") as [[| | | |[|m ms]|]|]; simpl; try done.
  split.
  - destruct (last (m :: ms)) as [x|] eqn:Hlast; [eauto|].
    by apply last_None in Hlast.
  - intros earlier text name Heq. rewrite Heq, last_snoc. done.
Qed.


(** X13: a team, as a node of the top-level graph, sees of the outer state
    the text of its last message only: two states with the same last message
    text give the same call; and what the node returns holds one message, the
    last of the team's response. *)
Theorem team_node_sees_last_message_only {W} (chain : string → M W state)
    (st1 st2 : state) (w : W) :
  get_last_message st1 = get_last_message st2 →
  team_node chain st1 w = team_node chain st2 w ∧
  (∀ message, get_last_message st1 = Returned message →
     ∀ response w', chain message w = (Returned response, w') →
       team_node chain st1 w = (join_graph response, w')) ∧
  (∀ delta w', team_node chain st1 w = (Returned delta, w') →
     ∃ m, delta = {[ "messages" := VList [m] ]}).
Proof.
  intros Hsame. unfold team_node, mbind, lift. rewrite <-Hsame. split_and!.
  - done.
  - intros message -> response w' ->. done.
  - intros delta w'. destruct (get_last_message st1) as [message|e]; [|done].
    destruct (chain message w) as [[response|e] w1]; [|done].
    unfold join_graph. destruct (getitem response "messages") as [ms|]; [|done].
    simpl. destruct (getitem_last ms) as [m|]; [|done]. simpl.
    intros [= <- <-]. eauto.
Qed.

Lemma team_node_sees_last_message_only_witness :
  let chain : string → M nat state := λ message w,
    (Returned (enter_chain ("re: " +:+ message) None), S w) in
  let said (text : string) := VMsg (HumanMessage text None) in
  let st1 : state := {[ "messages" := VList [said "hello"] ]} in
  let st2 : state :=
    {[ "messages" := VList [said "earlier"; said "hello"]; "next" := VStr "Research team" ]} in
  team_node chain st1 0%nat = team_node chain st2 0%nat.
Proof.
  intros chain said st1 st2.
  assert (get_last_message st1 = get_last_message st2) as Hsame by reflexivity.
  destruct (team_node_sees_last_message_only chain st1 st2 0%nat Hsame) as [Heq _].
  exact Heq.
Defined.

(** X14: [prelude] sets [current_files] and leaves every other field as it
    is; the field is made anew each time, not added to; and it is the text
    "No files written." exactly when the listing is empty. *)
Theorem prelude_sets_current_files (st : state) (written_files : list string) :
  (∀ field, field ≠ "current_files" →
     prelude st written_files !! field = st !! field) ∧
  (∀ earlier, prelude (prelude st earlier) written_files
              = prelude st written_files) ∧
  (prelude st written_files !! "current_files" = Some (VStr "No files written.")
   ↔ written_files = []).
Proof.
  split_and!.
  - intros field Hfield. destruct written_files; simpl; by rewrite lookup_insert_ne.
  - intros earlier.
    destruct written_files, earlier; simpl; by rewrite insert_insert_eq.
  - destruct written_files as [|f fs]; simpl; rewrite lookup_insert_eq; [done|].
    split; [|done]. by intros [=].
Qed.

(** ** The supervisor and the wiring of the graphs *)

(** X15: in each of the three graphs the mapping of the conditional edge has
    as its keys exactly the options that the graph's supervisor is declared
    with, [FINISH] and the members: [FINISH] leads to the end, every member
    to the node of that name, which the graph has. *)
Theorem routing_table_matches_options {W} (llm : RouteRequest → M W Reply)
    (search_agent research_agent : state → M W state)
    (doc_writer note_taker copy_editor dopeness_editor : state → M W state)
    (research_chain authoring_chain : string → M W state)
    (g : StateGraph W) (members : list string) :
  (g, members) ∈
    [(create_research_graph llm search_agent research_agent,
      ["Search"; "LoanRetriever"]);
     (create_authoring_graph llm doc_writer note_taker copy_editor dopeness_editor,
      ["DocWriter"; "NoteTaker"; "DopenessEditor"; "CopyEditor"]);
     (create_supervisor_graph llm research_chain authoring_chain,
      ["Research team"; "Response team"])] →
  ∃ prompt pm,
    nodes g !! "supervisor" = Some (create_team_supervisor llm prompt members) ∧
    branches g = [("supervisor", {| path := by_next; path_map := pm |})] ∧
    dom pm = list_to_set ("FINISH" :: members) ∧
    pm !! "FINISH" = Some END ∧
    NoDup ("FINISH" :: members) ∧
    ∀ m, m ∈ members → pm !! m = Some (Node m) ∧ is_Some (nodes g !! m).
Proof.
  rewrite !elem_of_cons, elem_of_nil.
  intros [[= -> ->]|[[= -> ->]|[[= -> ->]|[]]]];
    do 2 eexists; (split_and!; [reflexivity|reflexivity| |reflexivity| |]).
  all: try (rewrite dom_list_to_map_L; simpl; set_solver).
  all: try compute_done.
  all: intros m; rewrite !elem_of_cons, elem_of_nil;
    intros Hm; repeat (destruct Hm as [->|Hm]; [split; [reflexivity|by eexists]|]);
    done.
Qed.

Lemma routing_table_matches_options_witness :
  let llm : RouteRequest → M nat Reply := λ _ w, (Returned Unparsable, w) in
  let agent : state → M nat state := λ _ w, (Returned ∅, w) in
  let chain : string → M nat state := λ _ w, (Returned ∅, w) in
  let g := create_authoring_graph llm agent agent agent agent in
  ∃ pm, branches g = [("supervisor", {| path := by_next; path_map := pm |})] ∧
        pm !! "CopyEditor" = Some (Node "CopyEditor").
Proof.
  intros llm agent chain g.
  assert ((g, ["DocWriter"; "NoteTaker"; "DopenessEditor"; "CopyEditor"]) ∈
            [(create_research_graph llm agent agent, ["Search"; "LoanRetriever"]);
             (create_authoring_graph llm agent agent agent agent,
              ["DocWriter"; "NoteTaker"; "DopenessEditor"; "CopyEditor"]);
             (create_supervisor_graph llm chain chain,
              ["Research team"; "Response team"])]) as Hg.
  { apply list_elem_of_further, list_elem_of_here. }
  destruct (routing_table_matches_options _ _ _ _ _ _ _ _ _ _ _ Hg)
    as (prompt & pm & _ & Hbranches & _ & _ & _ & Hmembers).
  exists pm. split; [exact Hbranches|].
  apply Hmembers. do 3 apply list_elem_of_further. apply list_elem_of_here.
Defined.

(** X16: each of the three graphs is wired completely: it starts at the
    supervisor, its nodes are the supervisor and the members, and its edges
    are one per member, from the member to the supervisor. *)
Theorem graphs_are_wired_completely {W} (llm : RouteRequest → M W Reply)
    (search_agent research_agent : state → M W state)
    (doc_writer note_taker copy_editor dopeness_editor : state → M W state)
    (research_chain authoring_chain : string → M W state)
    (g : StateGraph W) (members : list string) :
  (g, members) ∈
    [(create_research_graph llm search_agent research_agent,
      ["Search"; "LoanRetriever"]);
     (create_authoring_graph llm doc_writer note_taker copy_editor dopeness_editor,
      ["DocWriter"; "NoteTaker"; "DopenessEditor"; "CopyEditor"]);
     (create_supervisor_graph llm research_chain authoring_chain,
      ["Research team"; "Response team"])] →
  entry_point g = Some "supervisor" ∧
  dom (nodes g) = list_to_set ("supervisor" :: members) ∧
  edges g ≡ₚ (λ m, (m, "supervisor")) <$> members ∧
  "supervisor" ∉ members.
Proof.
  rewrite !elem_of_cons, elem_of_nil.
  intros [[= -> ->]|[[= -> ->]|[[= -> ->]|[]]]]; simpl.
  - split_and!; [done|rewrite !dom_insert_L; set_solver|done|compute_done].
  - split_and!; [done|rewrite !dom_insert_L; set_solver| |compute_done].
    do 2 apply Permutation_skip. apply Permutation_swap.
  - split_and!; [done|rewrite !dom_insert_L; set_solver|done|compute_done].
Qed.

Lemma graphs_are_wired_completely_witness :
  let llm : RouteRequest → M nat Reply := λ _ w, (Returned Unparsable, w) in
  let agent : state → M nat state := λ _ w, (Returned ∅, w) in
  let chain : string → M nat state := λ _ w, (Returned ∅, w) in
  let g := create_supervisor_graph llm chain chain in
  dom (nodes g) = list_to_set ["supervisor"; "Research team"; "Response team"].
Proof.
  intros llm agent chain g.
  assert ((g, ["Research team"; "Response team"]) ∈
            [(create_research_graph llm agent agent, ["Search"; "LoanRetriever"]);
             (create_authoring_graph llm agent agent agent agent,
              ["DocWriter"; "NoteTaker"; "DopenessEditor"; "CopyEditor"]);
             (create_supervisor_graph llm chain chain,
              ["Research team"; "Response team"])]) as Hg.
  { do 2 apply list_elem_of_further. apply list_elem_of_here. }
  destruct (graphs_are_wired_completely _ _ _ _ _ _ _ _ _ _ _ Hg)
    as (_ & Hnodes & _).
  exact Hnodes.
Defined.

(** ** Edits as the file is read afterwards *)

(** The lines of a text that is empty or ends in a line feed each end in
    their only line feed. *)
Lemma readlines_complete (s : string) :
  s = "" ∨ (∃ b, s = b +:+ newline) →
  Forall (λ l, ∃ body, l = body +:+ newline ∧ no_newline body) (readlines s).
Proof.
  induction s as [|c s IH]; intros Hs; [constructor|].
  destruct Hs as [?|[b Hb]]; [done|].
  assert (s = "" ∨ ∃ b', s = b' +:+ newline) as Hs'.
  { destruct b as [|c' b'].
    - left. by injection Hb.
    - right. exists b'. by injection Hb. }
  specialize (IH Hs'). simpl.
  destruct (Ascii.eqb_spec c "010") as [->|Hc].
  - constructor; [|done]. exists "". split; [done|]. apply not_elem_of_nil.
  - destruct (readlines s) as [|l ls] eqn:Hlines.
    + apply readlines_empty_iff in Hlines as ->.
      destruct b as [|c' b']; [by injection Hb as ->|].
      injection Hb as _ Hb. by destruct b'.
    + apply Forall_cons in IH as [(body & -> & Hbody) IH].
      constructor; [|done]. exists (String c body). split; [done|].
      by apply no_newline_cons.
Qed.

Lemma apply_inserts_keeps_lines_whole si : ∀ lines lines',
  Forall (λ l, ∃ body, l = body +:+ newline ∧ no_newline body) lines →
  Forall (λ it, no_newline it.2) si →
  apply_inserts lines si = inl lines' →
  Forall (λ l, ∃ body, l = body +:+ newline ∧ no_newline body) lines'.
Proof.
  induction si as [|[k t] si IH]; intros lines lines' Hlines Hsi; simpl.
  - by intros [= <-].
  - apply Forall_cons in Hsi as [Ht Hsi]. case_bool_decide; [|done].
    apply IH; [|done]. unfold Py.insert.
    apply Forall_app. split; [by apply Forall_take|].
    constructor; [by exists t|by apply Forall_drop].
Qed.

(** X17: a successful edit, as the file is read afterwards.  For a file
    that is empty or ends in a line feed and texts without line break (the
    keys distinct, as in a dict), the file has afterwards one line more per
    insert, and its line [k] is the text given for [k], with a line feed. *)
Theorem edit_document_then_readlines wd file_name content
    (inserts : list (Z * string)) :
  wd !! file_name = Some content →
  content = "" ∨ (∃ b, content = b +:+ newline) →
  NoDup inserts.*1 →
  Forall (λ it, no_newline it.2) inserts →
  Forall (λ it, no_carriage_return it.2) inserts →
  (edit_document wd file_name inserts).1 = Returned (edited_message file_name) →
  ∃ content',
    (edit_document wd file_name inserts).2 !! file_name = Some content' ∧
    length (readlines content')
      = (length (readlines content) + length inserts)%nat ∧
    sublist (readlines content) (readlines content') ∧
    ∀ k text, (k, text) ∈ inserts →
      1 ≤ k ∧ readlines content' !! Z.to_nat (k - 1) = Some (text +:+ newline).
Proof.
  intros Hfile Hcomplete Hnd Hnl _.
  rewrite (edit_document_unfold _ _ content) by done.
  destruct (apply_inserts _ _) as [lines'|k] eqn:Happ; simpl; [intros _|].
  2: { intros Heq. injection Heq as Heq.
       by destruct (edited_is_no_error file_name k). }
  exists (writelines lines'). rewrite lookup_insert_eq.
  assert (readlines (writelines lines') = lines') as ->.
  { apply readlines_writelines.
    eapply apply_inserts_keeps_lines_whole; [| |exact Happ].
    - by apply readlines_complete.
    - by rewrite sorted_permutation. }
  split_and!; [done| | |].
  - rewrite (apply_inserts_length _ _ _ Happ).
    by rewrite (Permutation_length (sorted_permutation inserts)).
  - by eapply apply_inserts_sublist.
  - intros k text Hin.
    eapply (apply_inserts_places _ _ _ (sorted_keys_ascending _ Hnd) Happ).
    by rewrite sorted_permutation.
Qed.

Lemma edit_document_then_readlines_witness :
  let text := "a" +:+ newline +:+ "b" +:+ newline in
  let wd : workdir := {[ "notes.txt" := text ]} in
  ∃ content',
    (edit_document wd "notes.txt" [(4, "Z"); (1, "Y")]).2 !! "notes.txt"
      = Some content' ∧
    readlines content' !! 3%nat = Some ("Z" +:+ newline) ∧
    length (readlines content') = 4%nat.
Proof.
  intros text wd.
  assert (wd !! "notes.txt" = Some text) as Hfile by reflexivity.
  assert (text = "" ∨ ∃ b, text = b +:+ newline) as Hcomplete.
  { right. by exists ("a" +:+ newline +:+ "b"). }
  assert (NoDup [(4, "Z"); (1, "Y")].*1) as Hnd by compute_done.
  assert (Forall (λ it : Z * string, no_newline it.2) [(4, "Z"); (1, "Y")]) as Hnl.
  { repeat constructor; unfold no_newline; compute_done. }
  assert (Forall (λ it : Z * string, no_carriage_return it.2) [(4, "Z"); (1, "Y")])
    as Hcr.
  { repeat constructor; unfold no_carriage_return; compute_done. }
  destruct (edit_document_then_readlines wd "notes.txt" text _
              Hfile Hcomplete Hnd Hnl Hcr eq_refl)
    as (content' & Hafter & Hlen & _ & Hplaces).
  exists content'. split_and!; [exact Hafter| |exact Hlen].
  apply (Hplaces 4 "Z"). apply list_elem_of_here.
Defined.

(** ** The environment and the RAG steps *)

Lemma setup_environment_lookup (env : environ) (key : string) :
  setup_environment env !! key =
  if decide (key = "LANGSMITH_TRACING") then Some "true"
  else if decide (key = "LANGSMITH_PROJECT") then Some "langgraph_multiagent"
  else if decide (key ∈ ["OPENAI_API_KEY"; "TAVILY_API_KEY"; "LANGSMITH_API_KEY"])
       then Some (default "" (env !! key))
  else env !! key.
Proof.
  unfold setup_environment, getenv.
  destruct (decide (key = "LANGSMITH_TRACING")) as [->|?];
    [by rewrite lookup_insert_eq|].
  destruct (decide (key = "LANGSMITH_PROJECT")) as [->|?];
    [by rewrite lookup_insert_ne, lookup_insert_eq|].
  rewrite !(lookup_insert_ne _ "LANGSMITH_TRACING"),
    !(lookup_insert_ne _ "LANGSMITH_PROJECT") by done.
  destruct (decide (key = "LANGSMITH_API_KEY")) as [->|?].
  { rewrite lookup_insert_eq, !lookup_insert_ne by done.
    by rewrite decide_True by (rewrite !elem_of_cons; auto). }
  rewrite !(lookup_insert_ne _ "LANGSMITH_API_KEY") by done.
  destruct (decide (key = "TAVILY_API_KEY")) as [->|?].
  { rewrite lookup_insert_eq, !lookup_insert_ne by done.
    by rewrite decide_True by (rewrite !elem_of_cons; auto). }
  rewrite !(lookup_insert_ne _ "TAVILY_API_KEY") by done.
  destruct (decide (key = "OPENAI_API_KEY")) as [->|?].
  { rewrite lookup_insert_eq.
    by rewrite decide_True by (rewrite !elem_of_cons; auto). }
  rewrite !(lookup_insert_ne _ "OPENAI_API_KEY") by done.
  rewrite decide_False; [done|].
  rewrite !not_elem_of_cons. split_and!; [done..|apply not_elem_of_nil].
Qed.

(** X18: [setup_environment] keeps the value of each of the three API keys
    that is set and sets the others to the empty text, sets the project and
    the tracing flag, leaves every other variable as it is, and changes
    nothing when it is run again. *)
Theorem setup_environment_idempotent (env : environ) :
  setup_environment (setup_environment env) = setup_environment env ∧
  (∀ key, key ∈ ["OPENAI_API_KEY"; "TAVILY_API_KEY"; "LANGSMITH_API_KEY"] →
     setup_environment env !! key = Some (default "" (env !! key))) ∧
  setup_environment env !! "LANGSMITH_PROJECT" = Some "langgraph_multiagent" ∧
  setup_environment env !! "LANGSMITH_TRACING" = Some "true" ∧
  (∀ key, key ∉ ["OPENAI_API_KEY"; "TAVILY_API_KEY"; "LANGSMITH_API_KEY";
                 "LANGSMITH_PROJECT"; "LANGSMITH_TRACING"] →
     setup_environment env !! key = env !! key).
Proof.
  split_and!.
  - apply map_eq. intros key. rewrite !setup_environment_lookup.
    by repeat case_decide.
  - intros key Hkey. rewrite setup_environment_lookup.
    rewrite !elem_of_cons, elem_of_nil in Hkey.
    by destruct Hkey as [->|[->|[->|[]]]].
  - by rewrite setup_environment_lookup.
  - by rewrite setup_environment_lookup.
  - intros key. rewrite !not_elem_of_cons. intros (? & ? & ? & ? & ? & _).
    rewrite setup_environment_lookup, !decide_False; [done|..|done|done].
    rewrite !not_elem_of_cons. split_and!; [done..|apply not_elem_of_nil].
Qed.

(** X19: the two steps of the RAG graph pass on what they are given and
    return one field each.  [retrieve] asks the retriever for the question
    and returns the documents as [context]; [generate], on a state that holds
    them, calls the chain with the question as [query] and the documents as
    [context], and returns its answer as [response].  On a state without
    [context], [generate] raises [KeyError] and the chain is not called. *)
Theorem retrieve_then_generate {W} (retriever : value → M W value)
    (generator_chain : state → M W value) (st : state) (question : value) (w : W) :
  st !! "question" = Some question →
  (∀ retrieved_docs w1, retriever question w = (Returned retrieved_docs, w1) →
     retrieve st retriever w = (Returned {[ "context" := retrieved_docs ]}, w1) ∧
     ∀ response w2,
       generator_chain {[ "query" := question; "context" := retrieved_docs ]} w1
         = (Returned response, w2) →
       generate ({[ "context" := retrieved_docs ]} ∪ st) generator_chain w1
         = (Returned {[ "response" := response ]}, w2)) ∧
  (st !! "context" = None → generate st generator_chain w = (Raised KeyError, w)).
Proof.
  intros Hq. split.
  - intros docs w1 Hdocs. unfold retrieve, generate, mbind, lift, ret, getitem.
    rewrite Hq, Hdocs. split; [done|]. intros response w2 Hresp.
    rewrite lookup_union_r by (by apply lookup_singleton_ne).
    rewrite Hq. rewrite (lookup_union_Some_l _ _ _ docs)
      by apply lookup_singleton_eq.
    by rewrite Hresp.
  - intros Hc. unfold generate, mbind, lift, getitem. by rewrite Hq, Hc.
Qed.

Lemma retrieve_then_generate_witness :
  let retriever : value → M nat value := λ q w, (Returned (VList [q]), S w) in
  let generator_chain : state → M nat value := λ inputs w,
    (Returned (default VNone (inputs !! "query")), S w) in
  let st : state := {[ "question" := VStr "What are Pell Grants?" ]} in
  retrieve st retriever 0%nat
    = (Returned {[ "context" := VList [VStr "What are Pell Grants?"] ]}, 1%nat) ∧
  generate st generator_chain 0%nat = (Raised KeyError, 0%nat).
Proof.
  intros retriever generator_chain st.
  assert (st !! "question" = Some (VStr "What are Pell Grants?")) as Hq
    by reflexivity.
  destruct (retrieve_then_generate retriever generator_chain st _ 0%nat Hq)
    as [Hpipe Hmissing].
  split.
  - by apply (Hpipe (VList [VStr "What are Pell Grants?"]) 1%nat).
  - by apply Hmissing.
Defined.
